(** * cellbrowser gene-model tools: signature tables, release guessing,
    canonical transcripts and the per-chromosome locus index

  A shallow embedding of [cbPyLib/cellbrowser/genes.py].

  Conventions of the embedding.
  - A Python [str] is a [string] of 8-bit characters.  The gene tables are
    ASCII text, and on ASCII text the [str] methods used by the source
    ([startswith], [split], [join], [strip], [upper], slicing, [<]) agree
    with the definitions of [PyStr].
  - A [dict] whose iteration order is never observed in the result
    (signature tables) is a [gmap]; a [dict] whose insertion order decides
    the order of the output (gene buckets, loci per chromosome) is an
    insertion-ordered association list, see [ODict].
  - A [set] of strings is a [gset string]; its iteration order is the one
    of [elements].
  - A Python exception is a [None] result or a [Raised] outcome. *)

From Stdlib Require Import ZArith Ascii.
From stdpp Require Import gmap strings list fin_maps sorting lexico pretty.

Local Open Scope Z_scope.
Local Open Scope nat_scope.

(** ** Python string methods *)

Module PyStr.

Definition LF : ascii := "010"%char.
Definition CR : ascii := "013"%char.
Definition TAB : ascii := "009"%char.
Definition PIPE : ascii := "|"%char.
Definition DOT : ascii := "."%char.
Definition HASH : ascii := "#"%char.

Definition is_char (c : ascii) : ascii → bool := Ascii.eqb c.

(** [s.startswith(p)] *)
Fixpoint startswith (p s : string) : bool :=
  match p, s with
  | EmptyString, _ => true
  | String _ _, EmptyString => false
  | String a p', String b s' => Ascii.eqb a b && startswith p' s'
  end.

(** [s.split(sep)] for a one-character separator: never the empty list. *)
Fixpoint split (sep : ascii) (s : string) : list string :=
  match s with
  | EmptyString => [EmptyString]
  | String c s' =>
      if Ascii.eqb c sep then EmptyString :: split sep s'
      else match split sep s' with
           | h :: t => String c h :: t
           | [] => [String c EmptyString]
           end
  end.

(** [sep.join(l)] *)
Fixpoint join (sep : string) (l : list string) : string :=
  match l with
  | [] => EmptyString
  | [x] => x
  | x :: l' => x +:+ sep +:+ join sep l'
  end.

(** [s.lstrip(chars)], [s.rstrip(chars)], [s.strip(chars)], the character
    set given as a predicate. *)
Fixpoint lstrip (p : ascii → bool) (s : string) : string :=
  match s with
  | EmptyString => EmptyString
  | String c s' => if p c then lstrip p s' else s
  end.

Fixpoint rstrip (p : ascii → bool) (s : string) : string :=
  match s with
  | EmptyString => EmptyString
  | String c s' =>
      match rstrip p s' with
      | EmptyString => if p c then EmptyString else String c EmptyString
      | r => String c r
      end
  end.

Definition strip (p : ascii → bool) (s : string) : string :=
  rstrip p (lstrip p s).

(** The characters [str.strip()] removes, within ASCII. *)
Definition is_space (c : ascii) : bool :=
  let n := nat_of_ascii c in
  (9 <=? n) && (n <=? 13) || (28 <=? n) && (n <=? 32).

(** [s[:n]] *)
Fixpoint slice_to (n : nat) (s : string) : string :=
  match n, s with
  | S n', String c s' => String c (slice_to n' s')
  | _, _ => EmptyString
  end.

(** [s.upper()] on ASCII letters. *)
Definition is_lower (c : ascii) : bool :=
  let n := nat_of_ascii c in (97 <=? n) && (n <=? 122).

Definition upper_char (c : ascii) : ascii :=
  if is_lower c then ascii_of_nat (nat_of_ascii c - 32) else c.

Fixpoint upper (s : string) : string :=
  match s with
  | EmptyString => EmptyString
  | String c s' => String (upper_char c) (upper s')
  end.

Definition is_digit (c : ascii) : bool :=
  let n := nat_of_ascii c in (48 <=? n) && (n <=? 57).

(** [''.join(c for c in s if p(c))] *)
Fixpoint filter_chars (p : ascii → bool) (s : string) : string :=
  match s with
  | EmptyString => EmptyString
  | String c s' => if p c then String c (filter_chars p s') else filter_chars p s'
  end.

(** [any(p(c) for c in s)] *)
Fixpoint any_char (p : ascii → bool) (s : string) : bool :=
  match s with
  | EmptyString => false
  | String c s' => p c || any_char p s'
  end.

(** [c in s] for a character. *)
Fixpoint has_char (c : ascii) (s : string) : bool :=
  match s with
  | EmptyString => false
  | String a s' => Ascii.eqb a c || has_char c s'
  end.

(** Iterating over a text file: the lines, each with its line feed. *)
Fixpoint lines (s : string) : list string :=
  match s with
  | EmptyString => []
  | String c s' =>
      if Ascii.eqb c LF then String c EmptyString :: lines s'
      else match lines s' with
           | [] => [String c EmptyString]
           | h :: t => String c h :: t
           end
  end.

End PyStr.

(** ** Signature tables *)

Module Signatures.
Import PyStr.

(** The inner loop of [keepOnlyUnique]: remove from [origVals] the set of
    every other key. *)
Definition subtractOthers (dictSet : gmap string (gset string))
    (key1 : string) (origVals : gset string) : gset string :=
  foldl (λ vals key2,
           if decide (key1 = key2) then vals else vals ∖ (dictSet !!! key2))
        origVals (map_to_list dictSet).*1.

(** [set.intersection] applied to the unpacked [setList]; with no argument
    it raises. *)
Definition intersection_all (setList : list (gset string)) : option (gset string) :=
  match setList with
  | [] => None
  | s :: rest => Some (foldl (∩) s rest)
  end.

Definition keepOnlyUnique (dictSet : gmap string (gset string))
  : option (gmap string (gset string) * nat) :=
  let uniqVals :=
    foldl (λ uniqVals kv, <[kv.1 := subtractOthers dictSet kv.1 kv.2]> uniqVals)
          ∅ (map_to_list dictSet) in
  allCommon ← intersection_all (map_to_list dictSet).*2;
  Some (uniqVals, size allCommon).

(** The union of the sets of all releases other than [R]. *)
Definition union_of_others (dictSet : gmap string (gset string)) (R : string)
  : gset string :=
  ⋃ (map_to_list (delete R dictSet)).*2.

(** The line [writeUniqs] writes for one release. *)
Definition uniqLine (key : string) (vals : gset string) : string :=
  key +:+ String TAB (join "|" (elements vals) +:+ String LF EmptyString).

(** [writeUniqs]: the text written to the output file. *)
Definition writeUniqs (dictSet : gmap string (gset string)) : string :=
  foldr (λ kv out, uniqLine kv.1 kv.2 +:+ out) EmptyString (map_to_list dictSet).

(** One iteration of the loop of [parseSignatures]; unpacking a line that
    does not have exactly two fields raises. *)
Definition parseSignatures_line (verToGenes : gmap string (list string))
    (line : string) : option (gmap string (list string)) :=
  if startswith "#" line then Some verToGenes
  else match split TAB (rstrip (is_char LF) line) with
       | [version; geneIds] => Some (<[version := split PIPE geneIds]> verToGenes)
       | _ => None
       end.

(** [parseSignatures], on the text of the signature file. *)
Definition parseSignatures (content : string) : option (gmap string (list string)) :=
  foldl (λ acc line, verToGenes ← acc; parseSignatures_line verToGenes line)
        (Some ∅) (lines content).

(** A release name that survives the file format: it does not start a
    comment line and has no separator in it.  A carriage return is kept
    out as well, since reading a file in text mode may turn it into a
    line feed. *)
Definition name_ok (key : string) : Prop :=
  startswith "#" key = false ∧ has_char TAB key = false ∧
  has_char LF key = false ∧ has_char CR key = false.

(** An identifier that survives the file format. *)
Definition id_ok (x : string) : Prop :=
  has_char PIPE x = false ∧ has_char TAB x = false ∧
  has_char LF x = false ∧ has_char CR x = false.

End Signatures.

(** ** The release guesser *)

Module Guesser.
Import PyStr.

(** Python's order on [(int, str)] tuples: first component, then the
    strings by code point. *)
Definition diff_le (a b : nat * string) : Prop :=
  a.1 < b.1 ∨ (a.1 = b.1 ∧ String.le a.2 b.2).

Definition diff_ge (a b : nat * string) : Prop := diff_le b a.

Global Instance diff_le_dec : RelDecision diff_le.
Proof. intros a b. unfold diff_le. apply _. Defined.

Global Instance diff_ge_dec : RelDecision diff_ge.
Proof. intros a b. unfold diff_ge. apply _. Defined.

(** [fileGenes.intersection(uniqGenes)], the second argument any iterable. *)
Definition intersection (fileGenes : gset string) (uniqGenes : list string)
  : gset string :=
  fileGenes ∩ list_to_set uniqGenes.

(** The list [diffs] at the end of the loop of [guessGencodeVersion]. *)
Definition diffs (fileGenes : gset string) (signGenes : gmap string (list string))
  : list (nat * string) :=
  (λ kv, (size (intersection fileGenes kv.2), kv.1)) <$> map_to_list signGenes.

(** [diffs.sort(reverse=True); diffs[0][1]]; on an empty table the index
    is out of range. *)
Definition guessGencodeVersion (fileGenes : gset string)
    (signGenes : gmap string (list string)) : option string :=
  match merge_sort diff_ge (diffs fileGenes signGenes) with
  | [] => None
  | best :: _ => Some best.2
  end.

(** Modelled from the spec: [splitOnce] of cellbrowser.py is not among the
    sources.  The specification reads the identifier from the first
    separated column of the line, so [splitOnce s sep] splits [s] at the
    first separator only, as [s.split(sep, 1)] does. *)
Fixpoint splitOnce (s : string) (sep : ascii) : list string :=
  match s with
  | EmptyString => [EmptyString]
  | String c s' =>
      if Ascii.eqb c sep then [EmptyString; s']
      else match splitOnce s' sep with
           | h :: t => String c h :: t
           | [] => [String c EmptyString]
           end
  end.

(** [l[0]] on the result of a split, which is never empty. *)
Definition first (l : list string) : string := hd EmptyString l.

(** The identifier [parseGenes] adds to its set for one line; [sep] is the
    separator of the file, a tab or a comma. *)
Definition lineGeneId (sep : ascii) (line : string) : string :=
  let geneId := first (splitOnce (slice_to 50 line) sep) in
  let geneId := strip is_space (strip (is_char CR) (strip (is_char LF) geneId)) in
  first (split PIPE (first (split DOT geneId))).

(** One iteration of the loop of [parseGenes], on the state
    [(headDone, fileGenes)]. *)
Definition parseGenes_step (sep : ascii) (st : bool * gset string)
    (line : string) : bool * gset string :=
  if negb st.1 then (true, st.2)
  else (st.1, {[ lineGeneId sep line ]} ∪ st.2).

Definition parseGenes (sep : ascii) (lines : list string) : gset string :=
  (foldl (parseGenes_step sep) (false, ∅) lines).2.

(** A character that none of the steps of the extraction reacts to. *)
Definition plain_char (sep c : ascii) : bool :=
  negb (Ascii.eqb c sep) && negb (is_space c)
  && negb (Ascii.eqb c DOT) && negb (Ascii.eqb c PIPE).

(** [guessGeneIdType]: [list(genes)[0]] is the first element in iteration
    order; on an empty set the index is out of range. *)
Definition classify (gene1 : string) : string * string :=
  if startswith "ENSG" gene1 then ("human", "ids")
  else if startswith "ENSMUS" gene1 then ("mouse", "ids")
  else if String.eqb (upper gene1) gene1 then ("human", "syms")
  else ("mouse", "syms").

Definition guessGeneIdType (genes : gset string) : option (string * string) :=
  match elements genes with
  | [] => None
  | gene1 :: _ => Some (classify gene1)
  end.

(** The words of the specification: a token is entirely uppercase when it
    has no lowercase letter. *)
Definition entirely_uppercase (s : string) : bool :=
  negb (any_char is_lower s).

End Guesser.

(** ** Python's order on tuples, and sorting *)

Module PyOrd.

(** The code points of a string. *)
Fixpoint codes (s : string) : list N :=
match s with
| EmptyString => []
| String c s' => N_of_ascii c :: codes s'
end.

(** [s1 < s2] on strings compares code points, as [<] on the lists of
    them; [lexico] on numbers, pairs and lists is Python's [<] on them. *)
Global Instance string_lexico : Lexico string :=
λ s1 s2, lexico (codes s1) (codes s2).

Lemma codes_inj s1 s2 : codes s1 = codes s2 → s1 = s2.
Proof.
revert s2. induction s1 as [|a s1 IH]; intros [|b s2] H; simplify_eq/=; [done|].
f_equal; [|by apply IH].
by rewrite <- (ascii_N_embedding a), <- (ascii_N_embedding b), H.
Qed.

Global Instance string_lexico_po : StrictOrder (@lexico string _).
Proof.
unfold lexico, string_lexico. split.
- intros s. apply (irreflexivity lexico (codes s)).
- intros s1 s2 s3. apply (transitivity (R:=lexico)).
Qed.

Global Instance string_lexico_trichotomy : TrichotomyT (@lexico string _).
Proof.
red; refine (λ s1 s2,
  match trichotomyT lexico (codes s1) (codes s2) with
  | inleft (left H) => inleft (left H)
  | inleft (right H) => inleft (right (codes_inj _ _ H))
  | inright H => inright H
  end).
Defined.

(** [x <= y] *)
Definition py_le {A} `{Lexico A} (x y : A) : Prop := lexico x y ∨ x = y.

(** [x >= y] *)
Definition py_ge {A} `{Lexico A} (x y : A) : Prop := py_le y x.

Global Instance py_le_dec {A} `{Lexico A, !TrichotomyT (@lexico A _),
  !StrictOrder (@lexico A _)} : RelDecision (@py_le A _).
Proof.
refine (λ x y,
  match trichotomyT lexico x y with
  | inleft (left H) => left (or_introl H)
  | inleft (right H) => left (or_intror H)
  | inright H => right _
  end).
abstract (intros [H'| ->];
          [exact (irreflexivity lexico _ (transitivity H H'))
          |exact (irreflexivity lexico _ H)]).
Defined.

Global Instance py_ge_dec {A} `{Lexico A, !TrichotomyT (@lexico A _),
  !StrictOrder (@lexico A _)} : RelDecision (@py_ge A _).
Proof. intros x y. unfold py_ge. apply _. Defined.

(** [l.sort()] and [l.sort(reverse=True)]: the order being total and
    antisymmetric, the sorted list is determined by the elements. *)
Definition py_sort {A} `{Lexico A, !TrichotomyT (@lexico A _),
  !StrictOrder (@lexico A _)} (l : list A) : list A :=
merge_sort py_le l.

Definition py_sort_reverse {A} `{Lexico A, !TrichotomyT (@lexico A _),
  !StrictOrder (@lexico A _)} (l : list A) : list A :=
merge_sort py_ge l.

End PyOrd.

(** ** Insertion-ordered dictionaries *)

Module ODict.

(** [d.get(k)] *)
Fixpoint get {V} (k : string) (d : list (string * V)) : option V :=
match d with
| [] => None
| (k', v) :: d' => if decide (k' = k) then Some v else get k d'
end.

(** Apply [f] to the value of [k] in place; a missing key is first bound,
    at the end, to [default]: [f(d[k])] on a [defaultdict], or
    [f(d.setdefault(k, default))]. *)
Fixpoint update {V} (default : V) (f : V → V) (k : string)
  (d : list (string * V)) : list (string * V) :=
match d with
| [] => [(k, f default)]
| (k', v) :: d' =>
    if decide (k' = k) then (k', f v) :: d' else (k', v) :: update default f k d'
end.

(** [d[k].append(x)] on a [defaultdict(list)], or
    [d.setdefault(k, []).append(x)]. *)
Definition append_to {V} (k : string) (x : V) (d : list (string * list V))
  : list (string * list V) :=
update [] (λ l, l ++ [x]) k d.

(** What a bucket holds after the values [ts] were appended to it one by
    one. *)
Definition extend {V} (o : option (list V)) (ts : list V) : option (list V) :=
match o, ts with
| None, [] => None
| _, _ => Some (default [] o ++ ts)
end.

End ODict.

(** ** Exceptions *)

Module Exn.

Inductive exn := KeyError | ValueError | IndexError.

Inductive res (A : Type) :=
| Ok (a : A)
| Raise (e : exn).
Global Arguments Ok {A} a.
Global Arguments Raise {A} e.

Definition bind {A B} (m : res A) (f : A → res B) : res B :=
match m with
| Ok a => f a
| Raise e => Raise e
end.

(** [x ← m; k] runs [k] unless [m] raised. *)
Global Instance res_bind : MBind res := λ A B f m, bind m f.
Global Instance res_ret : MRet res := λ A a, Ok a.

(** A loop whose body may raise. *)
Fixpoint foldM {A S} (f : S → A → res S) (s : S) (l : list A) : res S :=
match l with
| [] => Ok s
| x :: l' => bind (f s x) (λ s', foldM f s' l')
end.

Definition of_option {A} (e : exn) (o : option A) : res A :=
match o with
| Some a => Ok a
| None => Raise e
end.

End Exn.


(** ** [int(s)] on a string *)

Module PyInt.
Import PyStr.

Definition digit_value (c : ascii) : Z := Z.of_nat (nat_of_ascii c - 48).

(** The digits of a literal, with single underscores allowed between
    digits; [pending] says that the last character was an underscore. *)
Fixpoint digits (acc : Z) (pending : bool) (s : string) : option Z :=
match s with
| EmptyString => if pending then None else Some acc
| String c s' =>
    if is_digit c then digits (acc * 10 + digit_value c)%Z false s'
    else if Ascii.eqb c "_" then (if pending then None else digits acc true s')
    else None
end.

Definition unsigned (s : string) : option Z :=
match s with
| String c _ => if is_digit c then digits 0 false s else None
| EmptyString => None
end.

(** [int(s)]: surrounding white space, an optional sign, decimal digits;
    [None] stands for [ValueError]. *)
Definition py_int (s : string) : option Z :=
match strip is_space s with
| String "-" s' => Z.opp <$> unsigned s'
| String "+" s' => unsigned s'
| s' => unsigned s'
end.

End PyInt.

(** ** The canonical transcript of every gene *)

Module Canon.
Import PyStr PyOrd ODict Exn PyInt.

(** What a generator did: the rows it yielded, and the exception that
    ended it, if any. *)
Record outcome := { yielded : list (list string); raised : option exn }.

(** The first loop of [iterGencodeBed] up to the [append]: the gene of the
    line and the pair [(score, row)] put in its bucket. *)
Definition parseLine (transToGene : gmap string string) (line : string)
  : res (string * (Z * list string)) :=
let row := split TAB line in
transId ← of_option IndexError (row !! 1);
geneId ← of_option KeyError (transToGene !! transId);
score ← of_option ValueError (py_int (filter_chars is_digit geneId));
Ok (geneId, (score, row)).

Definition bucketLine (transToGene : gmap string string)
  (geneToTransList : list (string * list (Z * list string))) (line : string)
  : res (list (string * list (Z * list string))) :=
p ← parseLine transToGene line;
Ok (append_to p.1 p.2 geneToTransList).

(** One iteration of the loop over the exons, on the state
    [(blockStarts, blockLens)]. *)
Definition blockStep (acc : list string * list string) (exon : string * string)
  : res (list string * list string) :=
if String.eqb exon.1 "" then Ok acc
else exonEnd ← of_option ValueError (py_int exon.2);
     exonStart ← of_option ValueError (py_int exon.1);
     Ok (acc.1 ++ [exon.1], acc.2 ++ [pretty (exonEnd - exonStart)%Z]).

Definition blocks (exonStarts exonEnds : string) : res (list string * list string) :=
foldM blockStep ([], []) (zip (split "," exonStarts) (split "," exonEnds)).

(** The row yielded for a gene from its canonical transcript; the row must
    unpack into 16 fields.  The fifth field of the new row is the score
    column of the transcript, which shadows the numeric score. *)
Definition makeRow (geneId : string) (canonTransRow : list string) : res (list string) :=
match canonTransRow with
| [binIdx; name; chrom; strand; txStart; txEnd; cdsStart; cdsEnd; exonCount;
   exonStarts; exonEnds; score; name2; cdsStartStat; cdsEndStat; exonFrames] =>
    b ← blocks exonStarts exonEnds;
    Ok [chrom; txStart; txEnd; geneId; score; strand; cdsStart; cdsEnd;
        exonCount; join "," b.2; join "," b.1; name2]
| _ => Raise ValueError
end.

(** [transList.sort(); canonTransRow = transList[0][1]] and the rest of the
    loop body. *)
Definition canonicalRow (geneId : string) (transList : list (Z * list string))
  : res (list string) :=
match py_sort transList with
| [] => Raise IndexError
| t :: _ => makeRow geneId t.2
end.

(** The second loop: one row per bucket, in the order of the buckets (the
    order in which the genes first appear), until a bucket raises. *)
Fixpoint yieldRows (geneToTransList : list (string * list (Z * list string)))
  : outcome :=
match geneToTransList with
| [] => {| yielded := []; raised := None |}
| kv :: rest =>
    match canonicalRow kv.1 kv.2 with
    | Raise e => {| yielded := []; raised := Some e |}
    | Ok newRow =>
        let o := yieldRows rest in
        {| yielded := newRow :: yielded o; raised := raised o |}
    end
end.

(** [iterGencodeBed], on the transcript-to-gene table and the lines of the
    transcript table. *)
Definition iterGencodeBed (transToGene : gmap string string) (lines : list string)
  : outcome :=
match foldM (bucketLine transToGene) [] lines with
| Raise e => {| yielded := []; raised := Some e |}
| Ok geneToTransList => yieldRows geneToTransList
end.

(** The transcripts of a gene in the input, each with its rank, in input
    order. *)
Definition transcriptsOf (transToGene : gmap string string) (lines : list string)
  (geneId : string) : list (Z * list string) :=
omap (λ line, match parseLine transToGene line with
              | Ok p => if decide (p.1 = geneId) then Some p.2 else None
              | Raise _ => None
              end) lines.

(** The output rows of a gene: the fourth column is the gene. *)
Definition rowsOf (geneId : string) (rows : list (list string)) : list (list string) :=
filter (λ row, row !! 3 = Some geneId) rows.

End Canon.

(** ** The locus index *)

Module Locus.
Import PyStr PyOrd ODict Exn PyInt.

(** [iterBedRows]: the fields of every line of the BED file. *)
Definition iterBedRows (lines : list string) : list (list string) :=
(λ line, split TAB (rstrip (λ c, is_char LF c || is_char CR c) line)) <$> lines.

(** The first loop of [bedToJson] up to the [append]: the symbol and the
    chromosome of the row and the tuple
    [(transLen, start, end, strand, geneId)]. *)
Definition parseRow (geneToSym : gmap string string) (row : list string)
  : res (string * string * (Z * Z * Z * string * string)) :=
match take 6 row with
| [chrom; start; end_; geneId; score; strand] =>
    sym ← of_option KeyError (geneToSym !! geneId);
    start ← of_option ValueError (py_int start);
    end_ ← of_option ValueError (py_int end_);
    Ok (sym, chrom, ((end_ - start)%Z, start, end_, strand, geneId))
| _ => Raise ValueError
end.

Definition indexRow (geneToSym : gmap string string)
  (bySym : list (string * list (string * list (Z * Z * Z * string * string))))
  (row : list string)
  : res (list (string * list (string * list (Z * Z * Z * string * string)))) :=
p ← parseRow geneToSym row;
Ok (update [] (append_to p.1.2 p.2) p.1.1 bySym).

(** [transList.sort(reverse=True); transList[0]] *)
Definition longest (transList : list (Z * Z * Z * string * string))
  : res (Z * Z * Z * string * string) :=
match py_sort_reverse transList with
| [] => Raise IndexError
| t :: _ => Ok t
end.

(** The entry of the index for a retained tuple. *)
Definition entry (sym : string) (t : Z * Z * Z * string * string)
  : Z * Z * string * string :=
(t.1.1.1.2, t.1.1.2, t.1.2, sym).

(** The body of the inner loop over the chromosomes of a symbol. *)
Definition keepLongest (sym : string)
  (symLocs : list (string * list (Z * Z * string * string)))
  (kv : string * list (Z * Z * Z * string * string))
  : res (list (string * list (Z * Z * string * string))) :=
t ← longest kv.2;
Ok (append_to kv.1 (entry sym t) symLocs).

(** The loop over the symbols. *)
Definition collect
  (bySym : list (string * list (string * list (Z * Z * Z * string * string))))
  : res (list (string * list (Z * Z * string * string))) :=
foldM (λ symLocs kv, foldM (keepLongest kv.1) symLocs kv.2) [] bySym.

(** [bedToJson] up to the dictionary [sortedLocs] that it serializes. *)
Definition bedToJson (geneToSym : gmap string string) (lines : list string)
  : res (list (string * list (Z * Z * string * string))) :=
bind (foldM (indexRow geneToSym) [] (iterBedRows lines)) (λ bySym,
bind (collect bySym) (λ symLocs,
Ok ((λ kv : string * list (Z * Z * string * string), (kv.1, py_sort kv.2))
      <$> symLocs))).

(** The tuples of the loci of a symbol on a chromosome, in input order. *)
Definition lociOf (geneToSym : gmap string string) (lines : list string)
  (sym chrom : string) : list (Z * Z * Z * string * string) :=
omap (λ row, match parseRow geneToSym row with
             | Ok p => if decide (p.1 = (sym, chrom)) then Some p.2 else None
             | Raise _ => None
             end) (iterBedRows lines).

(** [bySym[sym][chrom]], when both keys are there. *)
Definition get2 (sym chrom : string)
  (bySym : list (string * list (string * list (Z * Z * Z * string * string))))
  : option (list (Z * Z * Z * string * string)) :=
inner ← get sym bySym; get chrom inner.

(** The order of the entries of the index in words: by start, then by end,
    then by strand, then by symbol. *)
Definition entry_le (a b : Z * Z * string * string) : Prop :=
(a.1.1.1 < b.1.1.1)%Z ∨
(a.1.1.1 = b.1.1.1 ∧
 ((a.1.1.2 < b.1.1.2)%Z ∨
  (a.1.1.2 = b.1.1.2 ∧
   (lexico a.1.2 b.1.2 ∨ (a.1.2 = b.1.2 ∧ py_le a.2 b.2))))).

(** A tuple without its length: [(start, end, strand, geneId)]. *)
Definition rest (t : Z * Z * Z * string * string) : Z * Z * string * string :=
(t.1.1.1.2, t.1.1.2, t.1.2, t.2).

(** The buckets of [bySym] in the order the two nested loops of
    [bedToJson] visit them: [((sym, chrom), transList)]. *)
Definition flatten
  (bySym : list (string * list (string * list (Z * Z * Z * string * string))))
  : list (string * string * list (Z * Z * Z * string * string)) :=
bySym ≫= λ kv, (λ cv : string * list (Z * Z * Z * string * string),
                  (kv.1, cv.1, cv.2)) <$> kv.2.

(** The entry appended for a bucket, when [longest] does not raise. *)
Definition pick (x : string * string * list (Z * Z * Z * string * string))
  : option (Z * Z * string * string) :=
match longest x.2 with
| Ok t => Some (entry x.1.1 t)
| Raise _ => None
end.

(** Both keys of every level of [bySym] are distinct, as in any [dict]. *)
Definition wf_bySym
  (bySym : list (string * list (string * list (Z * Z * Z * string * string))))
  : Prop :=
NoDup bySym.*1 ∧ Forall (λ kv, NoDup kv.2.*1) bySym.

(** The entries of a symbol in the list of a chromosome. *)
Definition entriesOf (sym : string) (geneList : list (Z * Z * string * string))
  : list (Z * Z * string * string) :=
filter (λ e, e.2 = sym) geneList.

End Locus.

(** ** Symbol tables, the guess index and the rows of a BED file *)

Module Tables.
Import PyStr Exn Signatures.

(** [needle in hay] for strings. *)
Fixpoint contains (needle hay : string) : bool :=
startswith needle hay ||
match hay with
| EmptyString => false
| String _ hay' => contains needle hay'
end.

(** [writeRows]: the text written for the rows. *)
Definition writeRows (rows : list (list string)) : string :=
foldr (λ row out, join (String TAB "") row +:+ String LF out) EmptyString rows.

(** A field that survives the file: no tab, line feed or carriage
    return in it. *)
Definition field_ok (x : string) : Prop :=
any_char (λ c, is_char TAB c || is_char LF c || is_char CR c) x = false.

(** What a generator of pairs did: the pairs it yielded and the exception
    that ended it, if any. *)
Record pairs_outcome :=
  { pairs : list (string * string); pairs_raised : option exn }.

(** The key and the value [iterGencodePairs] reads from a line. *)
Definition pairOfLine (doTransGene : bool) (line : string) : res (string * string) :=
let row := split TAB (rstrip (is_char LF) line) in
if doTransGene then
  key ← of_option IndexError (row !! 4);
  val ← of_option IndexError (row !! 0);
  Ok (key, val)
else
  key ← of_option IndexError (row !! 0);
  val ← of_option IndexError (row !! 1);
  Ok (key, val).

(** The loop of [iterGencodePairs], from the set [doneIds] of the keys
    yielded so far. *)
Fixpoint pairsLoop (doTransGene : bool) (doneIds : gset string)
  (lines : list string) : pairs_outcome :=
match lines with
| [] => {| pairs := []; pairs_raised := None |}
| line :: lines' =>
    match pairOfLine doTransGene line with
    | Raise e => {| pairs := []; pairs_raised := Some e |}
    | Ok kv =>
        if decide (kv.1 ∈ doneIds) then pairsLoop doTransGene doneIds lines'
        else let o := pairsLoop doTransGene ({[kv.1]} ∪ doneIds) lines' in
             {| pairs := kv :: pairs o; pairs_raised := pairs_raised o |}
    end
end.

(** The first of the lines with the key [k] has the value [v]. *)
Definition first_row (doTransGene : bool) (lines : list string) (k v : string)
  : Prop :=
∃ before line after,
  lines = before ++ line :: after ∧
  pairOfLine doTransGene line = Ok (k, v) ∧
  ∀ line' v', line' ∈ before → pairOfLine doTransGene line' ≠ Ok (k, v').

(** [iterGencodePairs], on the lines of the attribute table. *)
Definition iterGencodePairs (doTransGene : bool) (lines : list string)
  : pairs_outcome :=
pairsLoop doTransGene ∅ lines.

(** The database [iterGencodePairs] downloads a release from; the first
    character of an empty release name is out of range. *)
Definition gencodeDb (release : string) : res string :=
match release with
| EmptyString => Raise IndexError
| String c _ =>
    let db := if Ascii.eqb c "M" then "mm10" else "hg38" in
    if bool_decide (release ∈ ["7"; "14"; "17"; "19"]) || contains "lift" release
    then Ok "hg19" else Ok db
end.

(** The test of [uniqueIds] on the base name of a symbol file: is the file
    one of the releases of the organism? *)
Definition selected (org baseName : string) : bool :=
negb (contains "lift" baseName || contains "mouse" baseName
      || contains "human" baseName)
&& negb (String.eqb org "human" && contains "M" baseName)
&& negb (String.eqb org "mouse" && negb (contains "M" baseName)).

(** The loop of [uniqueIds] over the lines of one symbol file, on the state
    [(syms, ids)]; a line with one field only does not unpack. *)
Definition readSymbolLine (st : gset string * gset string) (line : string)
  : option (gset string * gset string) :=
match take 2 (split TAB (rstrip (is_char LF) line)) with
| [geneId; sym] => Some ({[sym]} ∪ st.1, {[geneId]} ∪ st.2)
| _ => None
end.

Definition readSymbolFile (lines : list string) : option (gset string * gset string) :=
foldl (λ acc line, st ← acc; readSymbolLine st line) (Some (∅, ∅)) lines.

(** The loop of [uniqueIds] over the symbol files, given as base name and
    lines, on the state [(allSyms, allIds)]. *)
Definition readSymbolFiles (org : string) (files : list (string * list string))
  : option (gmap string (gset string) * gmap string (gset string)) :=
foldl (λ acc file,
         st ← acc;
         if selected org file.1 then
           let geneType := hd EmptyString (split DOT file.1) in
           symsIds ← readSymbolFile file.2;
           Some (<[geneType := symsIds.1]> st.1, <[geneType := symsIds.2]> st.2)
         else Some st)
      (Some (∅, ∅)) files.

(** [uniqueIds]: the texts of the two files it writes, for the symbols and
    for the gene identifiers. *)
Definition uniqueIds (org : string) (files : list (string * list string))
  : option (string * string) :=
all ← readSymbolFiles org files;
uniqSyms ← keepOnlyUnique all.1;
uniqIds ← keepOnlyUnique all.2;
Some (writeUniqs uniqSyms.1, writeUniqs uniqIds.1).

End Tables.

(** ** The guess for a file, and the order of first appearance *)

Module Pipeline.
Import PyStr Signatures Guesser.

(** The keys of a [dict] filled from the list [l] of keys: every key once,
    at the place of its first occurrence. *)
Fixpoint firstSeen (l : list string) : list string :=
match l with
| [] => []
| x :: l' => x :: filter (λ y, y ≠ x) (firstSeen l')
end.

(** Modelled from the spec: [getStaticFile] and [openFile] of cellbrowser.py
    are not among the sources.  The specification makes a missing signature
    table of the organism and identifier type a fatal condition, so
    [signatureFile org geneType] is the text of
    [genes/<org>.<geneType>.unique.tsv.gz], or [None] when there is no such
    file. *)
Definition openSignatures (signatureFile : string → string → option string)
  (org geneType : string) : option (gmap string (list string)) :=
content ← signatureFile org geneType; parseSignatures content.

(** [guessGencode], on the separator and the lines of the input file; the
    result is the pair of the organism and the release that it prints. *)
Definition guessGencode (sep : ascii) (lines : list string) (org : option string)
  (signatureFile : string → string → option string) : option (string * string) :=
let inGenes := parseGenes sep lines in
guess ← guessGeneIdType inGenes;
let org := default guess.1 org in
signGenes ← openSignatures signatureFile org guess.2;
bestVersion ← guessGencodeVersion inGenes signGenes;
Some (org, bestVersion).

End Pipeline.

(** ** Example data *)

Module Examples.

Definition three_releases : gmap string (gset string) :=
  <["gencode-32" := {["A"; "B"; "Z"]}]>
    (<["gencode-33" := {["B"; "C"]}]>
       (<["gencode-34" := {["B"; "Z"]}]> ∅)).

(** The table of the end-to-end example of the specification. *)
Definition sign_example : gmap string (list string) :=
  <["rel1" := ["A"; "B"]]> (<["rel2" := ["C"]]> (<["rel3" := []]> ∅)).

(** A table in which the release with the empty signature has the
    smaller name. *)
Definition sign_empty_first : gmap string (list string) :=
  <["gencode-33" := []]> (<["gencode-34" := ["ENSG7"]]> ∅).

(** Signature tables for the file format: two releases with one unique
    identifier each, a release with no unique identifier, and an
    identifier with the separator of the list in it. *)
Definition sign_two : gmap string (gset string) :=
  <["gencode-32" := {["A"]}]> (<["gencode-33" := {["C"]}]> ∅).

Definition sign_with_empty : gmap string (gset string) :=
  {["gencode-34" := ∅]}.

Definition sign_with_pipe : gmap string (gset string) :=
  {["gencode-34" := {["A|B"]}]}.

(** Two lines of an input file whose first column runs over the first 50
    characters and differs only after them. *)
Definition first_50 : string :=
  "ENSG00000141510_isoform_with_a_very_long_suffix_ab".

Definition line_a : string :=
  first_50 +:+ "cdefgh" +:+ String PyStr.TAB ("12" +:+ String PyStr.LF "").

Definition line_b : string :=
  first_50 +:+ "XYZ" +:+ String PyStr.TAB ("7" +:+ String PyStr.LF "").

Definition header_line : string :=
  "gene" +:+ String PyStr.TAB ("count" +:+ String PyStr.LF "").

(** A line of a tab-separated file. *)
Definition tabbed (fields : list string) : string :=
PyStr.join (String PyStr.TAB "") fields +:+ String PyStr.LF "".

(** Three transcripts of two genes; the two transcripts of the first gene
    have the same rank, and their rows differ from the first column on. *)
Definition trans_to_gene : gmap string string :=
<["ENST01" := "ENSG00000000005.5"]>
  (<["ENST02" := "ENSG00000000005.5"]>
     (<["ENST03" := "ENSG00000000003.14"]> ∅)).

Definition trans1 : string :=
tabbed ["585"; "ENST01"; "chrX"; "+"; "100"; "500"; "150"; "450"; "2";
        "100,300,"; "200,500,"; "0"; "TNMD"; "cmpl"; "cmpl"; "0,1,"].

Definition trans2 : string :=
tabbed ["1370"; "ENST02"; "chrX"; "+"; "120"; "500"; "150"; "450"; "1";
        "120,"; "500,"; "0"; "TNMD"; "cmpl"; "cmpl"; "0,"].

Definition trans3 : string :=
tabbed ["586"; "ENST03"; "chrX"; "-"; "900"; "1000"; "900"; "1000"; "1";
        "900,"; "1000,"; "0"; "TSPAN6"; "cmpl"; "cmpl"; "0,"].

(** Rows of a gene BED file: two loci of TP53 on chr17 of lengths 100 and
    250, and one locus of another gene. *)
Definition gene_to_sym : gmap string string :=
<["ENSG01" := "TP53"]> (<["ENSG02" := "TP53"]> (<["ENSG03" := "WRAP53"]> ∅)).

Definition bed1 : string := tabbed ["chr17"; "1000"; "1100"; "ENSG01"; "0"; "-"].
Definition bed2 : string := tabbed ["chr17"; "1050"; "1300"; "ENSG02"; "0"; "-"].
Definition bed3 : string := tabbed ["chr17"; "400"; "900"; "ENSG03"; "0"; "+"].

(** Two loci of TP53 on chr17 of the same length 100. *)
Definition bed_tie1 : string := tabbed ["chr17"; "0"; "100"; "ENSG01"; "0"; "+"].
Definition bed_tie2 : string := tabbed ["chr17"; "50"; "150"; "ENSG02"; "0"; "+"].

(** Lines of an attribute table: gene, symbol, ..., transcript in the
    fifth column; the second line repeats the gene of the first. *)
Definition attrs1 : string :=
tabbed ["ENSG00000000005.5"; "TNMD"; "protein_coding"; "KNOWN"; "ENST01"].
Definition attrs2 : string :=
tabbed ["ENSG00000000005.5"; "TNMD-AS"; "protein_coding"; "KNOWN"; "ENST02"].
Definition attrs3 : string :=
tabbed ["ENSG00000000003.14"; "TSPAN6"; "protein_coding"; "KNOWN"; "ENST03"].

End Examples.

Section keepOnlyUnique_facts.
Import Signatures.
Implicit Types dictSet : gmap string (gset string).

Lemma subtractOthers_fold key1 (keys : list string) dictSet vals x :
  x ∈ foldl (λ vals key2,
               if decide (key1 = key2) then vals else vals ∖ (dictSet !!! key2))
            vals keys
  ↔ x ∈ vals ∧ ∀ key2, key2 ∈ keys → key2 ≠ key1 → x ∉ dictSet !!! key2.
Proof.
  revert vals. induction keys as [|k keys IH]; intros vals; simpl.
  - split; [intros ?; split; [done|] | tauto].
    intros ? Hin. by apply elem_of_nil in Hin.
  - rewrite IH. split.
    + intros [Hx Hrest]. case_decide as Hk.
      * split; [done|]. intros key2 Hin Hne.
        apply elem_of_cons in Hin as [->|Hin]; [congruence | by apply Hrest].
      * apply elem_of_difference in Hx as [Hx Hnk]. split; [done|].
        intros key2 Hin Hne.
        apply elem_of_cons in Hin as [->|Hin]; [done | by apply Hrest].
    + intros [Hx Hrest]. split.
      * case_decide as Hk; [done|]. apply elem_of_difference. split; [done|].
        apply Hrest; [left | congruence].
      * intros key2 Hin. apply Hrest. by right.
Qed.

Lemma elem_of_subtractOthers dictSet key1 origVals x :
  x ∈ subtractOthers dictSet key1 origVals
  ↔ x ∈ origVals ∧
    ∀ key2 s2, key2 ≠ key1 → dictSet !! key2 = Some s2 → x ∉ s2.
Proof.
  unfold subtractOthers. rewrite subtractOthers_fold. split.
  - intros [Hx Hrest]. split; [done|]. intros key2 s2 Hne Hl.
    specialize (Hrest key2). rewrite (lookup_total_correct _ _ _ Hl) in Hrest.
    apply Hrest; [|done]. apply list_elem_of_fmap. exists (key2, s2).
    split; [done|]. by apply elem_of_map_to_list.
  - intros [Hx Hrest]. split; [done|]. intros key2 Hin Hne.
    apply list_elem_of_fmap in Hin as [[k s2] [-> Hin]]. simpl in *.
    apply elem_of_map_to_list in Hin.
    rewrite (lookup_total_correct _ _ _ Hin). by eapply Hrest.
Qed.

Lemma uniqVals_fold_lookup {B} (f : string → gset string → B)
    (kvs : list (string * gset string)) (acc : gmap string B) k :
  foldl (λ uniqVals kv, <[kv.1 := f kv.1 kv.2]> uniqVals) acc kvs !! k
  = match list_find (λ kv, kv.1 = k) (reverse kvs) with
    | Some (_, kv) => Some (f kv.1 kv.2)
    | None => acc !! k
    end.
Proof.
  revert acc. induction kvs as [|[k' v'] kvs IH]; intros acc; simpl; [done|].
  rewrite IH, reverse_cons. clear IH.
  destruct (list_find (λ kv, kv.1 = k) (reverse kvs)) as [[i kv]|] eqn:Hf.
  - erewrite list_find_app_l; [done|]. exact Hf.
  - rewrite list_find_app_r by done. simpl.
    case_decide as Hk; simpl in *.
    + subst. by rewrite lookup_insert_eq.
    + by rewrite lookup_insert_ne.
Qed.

Lemma uniqVals_lookup {B} dictSet (f : string → gset string → B) k :
  foldl (λ uniqVals kv, <[kv.1 := f kv.1 kv.2]> uniqVals)
        (∅ : gmap string B) (map_to_list dictSet) !! k
  = f k <$> dictSet !! k.
Proof.
  rewrite uniqVals_fold_lookup.
  destruct (list_find _ _) as [[i [k' v']]|] eqn:Hf.
  - apply list_find_Some in Hf as (Hi & Hk & _). simpl in *. subst k'.
    apply list_elem_of_lookup_2, elem_of_reverse, elem_of_map_to_list in Hi.
    by rewrite Hi.
  - rewrite lookup_empty. destruct (dictSet !! k) as [v|] eqn:Hl; [|done].
    apply list_find_None in Hf. rewrite Forall_forall in Hf.
    destruct (Hf (k, v)); [|done].
    by apply elem_of_reverse, elem_of_map_to_list.
Qed.

Lemma keepOnlyUnique_Some dictSet :
  dictSet ≠ ∅ →
  ∃ common, keepOnlyUnique dictSet
    = Some (foldl (λ uniqVals kv,
                     <[kv.1 := subtractOthers dictSet kv.1 kv.2]> uniqVals)
                  ∅ (map_to_list dictSet), common).
Proof.
  intros Hne. unfold keepOnlyUnique.
  destruct (map_to_list dictSet) as [|kv kvs] eqn:Hl.
  - by apply map_to_list_empty_iff in Hl.
  - simpl. eauto.
Qed.

Lemma keepOnlyUnique_inv dictSet uniqVals common :
  keepOnlyUnique dictSet = Some (uniqVals, common) →
  ∀ k, uniqVals !! k = subtractOthers dictSet k <$> dictSet !! k.
Proof.
  unfold keepOnlyUnique. intros H k.
  destruct (intersection_all _); simplify_eq/=.
  apply uniqVals_lookup.
Qed.

Lemma elem_of_union_of_others dictSet R x :
  x ∈ union_of_others dictSet R
  ↔ ∃ R' S', R' ≠ R ∧ dictSet !! R' = Some S' ∧ x ∈ S'.
Proof.
  unfold union_of_others. rewrite elem_of_union_list. split.
  - intros (S' & Hin & Hx). apply list_elem_of_fmap in Hin as [[R' S''] [-> Hin]].
    apply elem_of_map_to_list, lookup_delete_Some in Hin as [? ?]. eauto.
  - intros (R' & S' & Hne & Hl & Hx). exists S'. split; [|done].
    apply list_elem_of_fmap. exists (R', S'). split; [done|].
    apply elem_of_map_to_list, lookup_delete_Some. auto.
Qed.

End keepOnlyUnique_facts.

(** ** The signature table builder *)

Section keepOnlyUnique_claims.
Import Signatures Examples.
Implicit Types dictSet : gmap string (gset string).

(** C1. For every release [R] of the input mapping, with set [S_R],
    [keepOnlyUnique] returns a mapping over the same releases in which
    [R] is bound to exactly [S_R] minus the union of the sets of all the
    other releases: an identifier is in the output set of [R] iff it is
    in [S_R] and in the input set of no other release. *)
Theorem keepOnlyUnique_exact dictSet R S_R :
  dictSet !! R = Some S_R →
  ∃ uniqVals common,
    keepOnlyUnique dictSet = Some (uniqVals, common) ∧
    dom uniqVals = dom dictSet ∧
    uniqVals !! R = Some (S_R ∖ union_of_others dictSet R) ∧
    ∀ x, x ∈ S_R ∖ union_of_others dictSet R
         ↔ x ∈ S_R ∧ ∀ R' S', R' ≠ R → dictSet !! R' = Some S' → x ∉ S'.
Proof.
  intros HR.
  destruct (keepOnlyUnique_Some dictSet) as [common Hk].
  { intros ->. by rewrite lookup_empty in HR. }
  eexists _, common. split; [exact Hk|].
  pose proof (keepOnlyUnique_inv _ _ _ Hk) as Hl.
  assert (∀ x, x ∈ S_R ∖ union_of_others dictSet R
               ↔ x ∈ S_R ∧ ∀ R' S', R' ≠ R → dictSet !! R' = Some S' → x ∉ S')
    as Hiff.
  { intros x. rewrite elem_of_difference, elem_of_union_of_others.
    split; intros [Hx Hn]; (split; [done|]).
    - intros R' S' Hne HS' Hx'. apply Hn. eauto.
    - intros (R' & S' & Hne & HS' & Hx'). by eapply Hn. }
  split; [|split; [|exact Hiff]].
  - apply set_eq. intros k. rewrite !elem_of_dom, Hl.
    by rewrite fmap_is_Some.
  - rewrite Hl, HR. simpl. f_equal. apply set_eq. intros x.
    by rewrite elem_of_subtractOthers, Hiff.
Qed.

Lemma keepOnlyUnique_exact_witness :
  ∃ uniqVals common,
    keepOnlyUnique three_releases = Some (uniqVals, common) ∧
    dom uniqVals = dom three_releases ∧
    uniqVals !! "gencode-32"
      = Some ({["A"; "B"; "Z"]} ∖ union_of_others three_releases "gencode-32") ∧
    ∀ x, x ∈ ({["A"; "B"; "Z"]} : gset string)
               ∖ union_of_others three_releases "gencode-32"
         ↔ x ∈ ({["A"; "B"; "Z"]} : gset string) ∧
           ∀ R' S', R' ≠ "gencode-32" → three_releases !! R' = Some S' → x ∉ S'.
Proof. apply (keepOnlyUnique_exact three_releases "gencode-32"). reflexivity. Defined.

(** C2. On a mapping with at least two releases [keepOnlyUnique] returns,
    and the unique sets of any two distinct releases are disjoint. *)
Theorem keepOnlyUnique_pairwise_disjoint dictSet :
  2 ≤ size dictSet →
  ∃ uniqVals common,
    keepOnlyUnique dictSet = Some (uniqVals, common) ∧
    ∀ R1 R2 U1 U2,
      R1 ≠ R2 → uniqVals !! R1 = Some U1 → uniqVals !! R2 = Some U2 →
      U1 ∩ U2 = ∅.
Proof.
  intros Hsz.
  destruct (keepOnlyUnique_Some dictSet) as [common Hk].
  { intros ->. rewrite map_size_empty in Hsz. lia. }
  eexists _, common. split; [exact Hk|].
  pose proof (keepOnlyUnique_inv _ _ _ Hk) as Hl.
  intros R1 R2 U1 U2 Hne H1 H2. rewrite Hl in H1, H2.
  apply fmap_Some in H1 as (S1 & HS1 & ->).
  apply fmap_Some in H2 as (S2 & HS2 & ->).
  apply set_eq. intros x. rewrite elem_of_intersection, !elem_of_subtractOthers.
  split; [|by intros ?%not_elem_of_empty].
  intros [[Hx1 Hn1] [Hx2 Hn2]]. destruct (Hn1 R2 S2); auto.
Qed.

Lemma keepOnlyUnique_pairwise_disjoint_witness :
  ∃ uniqVals common,
    keepOnlyUnique three_releases = Some (uniqVals, common) ∧
    ∀ R1 R2 U1 U2,
      R1 ≠ R2 → uniqVals !! R1 = Some U1 → uniqVals !! R2 = Some U2 →
      U1 ∩ U2 = ∅.
Proof. apply (keepOnlyUnique_pairwise_disjoint three_releases). vm_compute. lia. Defined.

Example keepOnlyUnique_three_releases :
  keepOnlyUnique three_releases
  = Some (<["gencode-32" := {["A"]}]>
            (<["gencode-33" := {["C"]}]> (<["gencode-34" := ∅]> ∅)), 1).
Proof. vm_compute. reflexivity. Qed.

End keepOnlyUnique_claims.

(** ** The release guesser *)

Section guesser_facts.
Import Guesser.

Global Instance diff_ge_total : Total diff_ge.
Proof.
  intros [n1 s1] [n2 s2]. unfold diff_ge, diff_le. simpl.
  destruct (lt_eq_lt_dec n1 n2) as [[?|?]|?]; [auto| |auto].
  destruct (total String.le s1 s2); auto.
Qed.

Global Instance diff_ge_trans : Transitive diff_ge.
Proof.
  intros [n1 s1] [n2 s2] [n3 s3]. unfold diff_ge, diff_le. simpl.
  intros [?|[? H1]] [?|[? H2]]; [left; lia..|].
  right. split; [lia|]. by etrans.
Qed.

Lemma diffs_elem fileGenes signGenes n R :
  (n, R) ∈ diffs fileGenes signGenes
  ↔ ∃ l, signGenes !! R = Some l ∧ n = size (intersection fileGenes l).
Proof.
  unfold diffs. rewrite list_elem_of_fmap. split.
  - intros ([R' l] & Heq & Hin). simplify_eq/=.
    apply elem_of_map_to_list in Hin. eauto.
  - intros (l & Hl & ->). exists (R, l). split; [done|].
    by apply elem_of_map_to_list.
Qed.

(** The head of the list sorted in descending order is a greatest
    element of [diffs]. *)
Lemma guess_head fileGenes signGenes :
  signGenes ≠ ∅ →
  ∃ best rest,
    merge_sort diff_ge (diffs fileGenes signGenes) = best :: rest ∧
    best ∈ diffs fileGenes signGenes ∧
    ∀ d, d ∈ diffs fileGenes signGenes → diff_le d best.
Proof.
  intros Hne.
  pose proof (merge_sort_Permutation diff_ge (diffs fileGenes signGenes)) as Hp.
  pose proof (StronglySorted_merge_sort diff_ge (diffs fileGenes signGenes)) as Hs.
  destruct (merge_sort diff_ge (diffs fileGenes signGenes)) as [|best rest].
  - apply Permutation_nil_l in Hp. unfold diffs in Hp. symmetry in Hp.
    apply fmap_nil_inv in Hp. by apply map_to_list_empty_iff in Hp.
  - exists best, rest. split; [done|]. split.
    + rewrite <- Hp. left.
    + intros d Hd. rewrite <- Hp in Hd.
      apply StronglySorted_inv in Hs as [_ Hall].
      apply elem_of_cons in Hd as [->|Hd].
      * destruct (total diff_ge best best); done.
      * rewrite Forall_forall in Hall. by apply Hall.
Qed.

(** The release returned has a score that no release of the table
    exceeds. *)
Lemma guess_best_score fileGenes signGenes :
  signGenes ≠ ∅ →
  ∃ best l,
    guessGencodeVersion fileGenes signGenes = Some best ∧
    signGenes !! best = Some l ∧
    ∀ R' l', signGenes !! R' = Some l' →
       size (intersection fileGenes l') ≤ size (intersection fileGenes l).
Proof.
  intros Hne.
  destruct (guess_head fileGenes signGenes Hne) as ([n best] & rest & Hs & Hin & Hmax).
  apply diffs_elem in Hin as (l & Hl & ->).
  exists best, l. unfold guessGencodeVersion. rewrite Hs. simpl.
  split; [done|]. split; [done|].
  intros R' l' Hl'.
  destruct (Hmax (size (intersection fileGenes l'), R')) as [?|[? _]];
    simpl in *; [|lia..].
  apply diffs_elem. eauto.
Qed.

End guesser_facts.

Section guesser_claims.
Import PyStr Guesser Examples.

(** The end-to-end example of the specification: the scores are 1, 1 and
    0, and of the two releases that tie the greater name comes first. *)
Example guess_sign_example :
  merge_sort diff_ge (diffs {["A"; "C"; "X"]} sign_example)
    = [(1, "rel2"); (1, "rel1"); (0, "rel3")]
  ∧ guessGencodeVersion {["A"; "C"; "X"]} sign_example = Some "rel2".
Proof. vm_compute. done. Qed.

(** C4, as stated, fails when the unique set of [R] is empty: the input
    equal to it is empty too, every release scores 0, and the release
    with the greatest name is returned. *)
Lemma guess_exact_input_counterexample :
  sign_empty_first !! "gencode-33" = Some []
  ∧ (∅ : gset string) = list_to_set ([] : list string)
  ∧ (∀ R' l', R' ≠ "gencode-33" → sign_empty_first !! R' = Some l' →
       intersection ∅ l' = ∅)
  ∧ guessGencodeVersion ∅ sign_empty_first = Some "gencode-34"
  ∧ guessGencodeVersion ∅ sign_empty_first ≠ Some "gencode-33".
Proof.
  split; [done|]. split; [done|]. split; [|by vm_compute].
  intros R' l' _ _. unfold intersection. apply (left_absorb_L ∅ (∩)).
Qed.

(** C4, amended. On a non-empty signature table the guesser returns a
    release whose intersection with the input is of maximal size; and if
    the input is the unique set of [R], that set is not empty, and the
    input has no element of the unique set of any other release, the
    release returned is [R]. *)
Theorem guessGencodeVersion_maximal fileGenes signGenes :
  signGenes ≠ ∅ →
  ∃ best l,
    guessGencodeVersion fileGenes signGenes = Some best ∧
    signGenes !! best = Some l ∧
    (∀ R' l', signGenes !! R' = Some l' →
       size (intersection fileGenes l') ≤ size (intersection fileGenes l)) ∧
    (∀ R lR,
       signGenes !! R = Some lR →
       fileGenes = list_to_set lR → fileGenes ≠ ∅ →
       (∀ R' l', R' ≠ R → signGenes !! R' = Some l' →
          intersection fileGenes l' = ∅) →
       best = R).
Proof.
  intros Hne.
  destruct (guess_head fileGenes signGenes Hne) as ([n best] & rest & Hs & Hin & Hmax).
  apply diffs_elem in Hin as (l & Hl & ->).
  exists best, l. unfold guessGencodeVersion. rewrite Hs. simpl.
  split; [done|]. split; [done|].
  assert (∀ R' l', signGenes !! R' = Some l' →
            size (intersection fileGenes l') ≤ size (intersection fileGenes l))
    as Hle.
  { intros R' l' Hl'.
    destruct (Hmax (size (intersection fileGenes l'), R')) as [?|[? _]];
      simpl in *; [|lia..].
    apply diffs_elem. eauto. }
  split; [exact Hle|].
  intros R lR HR Hfile Hnonempty Hothers.
  destruct (decide (best = R)) as [|Hbest]; [done|]. exfalso.
  specialize (Hle R lR HR).
  rewrite (Hothers best l Hbest Hl), size_empty in Hle.
  assert (intersection fileGenes lR = fileGenes) as Heq.
  { unfold intersection. rewrite <- Hfile. apply (idemp_L (∩)). }
  rewrite Heq in Hle. apply Hnonempty, leibniz_equiv, size_empty_inv. lia.
Qed.

Lemma guessGencodeVersion_maximal_witness :
  ∃ best l,
    guessGencodeVersion {["A"; "B"]} sign_example = Some best ∧
    sign_example !! best = Some l ∧
    (∀ R' l', sign_example !! R' = Some l' →
       size (intersection {["A"; "B"]} l') ≤ size (intersection {["A"; "B"]} l)) ∧
    (∀ R lR,
       sign_example !! R = Some lR →
       ({["A"; "B"]} : gset string) = list_to_set lR →
       ({["A"; "B"]} : gset string) ≠ ∅ →
       (∀ R' l', R' ≠ R → sign_example !! R' = Some l' →
          intersection {["A"; "B"]} l' = ∅) →
       best = R).
Proof.
  apply (guessGencodeVersion_maximal {["A"; "B"]} sign_example).
  intros H. apply (f_equal (λ m : gmap string (list string), m !! "rel1")) in H.
  vm_compute in H. discriminate.
Defined.

(** C5. A release [R] whose unique set is empty is scored 0, and [R] is
    returned as the best match only if every release of the table scores
    0. *)
Theorem guessGencodeVersion_empty_signature fileGenes signGenes R :
  signGenes !! R = Some [] →
  (0, R) ∈ diffs fileGenes signGenes ∧
  (∀ n, (n, R) ∈ diffs fileGenes signGenes → n = 0) ∧
  (guessGencodeVersion fileGenes signGenes = Some R →
   ∀ R' l', signGenes !! R' = Some l' → size (intersection fileGenes l') = 0).
Proof.
  intros HR.
  assert (size (intersection fileGenes []) = 0) as H0.
  { unfold intersection. simpl. rewrite (right_absorb_L ∅ (∩)). apply size_empty. }
  split; [|split].
  - apply diffs_elem. exists []. by rewrite H0.
  - intros n (l & Hl & ->)%diffs_elem. by simplify_eq.
  - intros Hg R' l' Hl'.
    destruct (guess_best_score fileGenes signGenes)
      as (best & l & Hbest & Hl & Hmax).
    { intros ->. by rewrite lookup_empty in HR. }
    rewrite Hg in Hbest. simplify_eq.
    specialize (Hmax R' l' Hl'). lia.
Qed.

Lemma guessGencodeVersion_empty_signature_witness :
  (0, "rel3") ∈ diffs {["A"; "C"; "X"]} sign_example ∧
  (∀ n, (n, "rel3") ∈ diffs {["A"; "C"; "X"]} sign_example → n = 0) ∧
  (guessGencodeVersion {["A"; "C"; "X"]} sign_example = Some "rel3" →
   ∀ R' l', sign_example !! R' = Some l' →
            size (intersection {["A"; "C"; "X"]} l') = 0).
Proof.
  apply (guessGencodeVersion_empty_signature {["A"; "C"; "X"]} sign_example "rel3").
  reflexivity.
Defined.

End guesser_claims.

Section guessGeneIdType_claims.
Import PyStr Guesser.

Lemma upper_char_fixed c : Ascii.eqb (upper_char c) c = negb (is_lower c).
Proof. by destruct c as [[] [] [] [] [] [] [] []]. Qed.

(** A token is left unchanged by [upper] exactly when it has no lowercase
    letter. *)
Lemma upper_fixed_entirely_uppercase s :
  String.eqb (upper s) s = entirely_uppercase s.
Proof.
  unfold entirely_uppercase. induction s as [|c s IH]; simpl; [done|].
  rewrite upper_char_fixed, IH. by destruct (is_lower c).
Qed.

(** C6. On a non-empty set the classification inspects one element of
    the set: the human gene prefix gives (human, ids), else the mouse gene
    prefix gives (mouse, ids), else a token that is entirely uppercase
    gives (human, syms), and any other token (mouse, syms). *)
Theorem guessGeneIdType_classification (genes : gset string) :
  genes ≠ ∅ →
  ∃ gene1,
    gene1 ∈ genes ∧
    guessGeneIdType genes
    = Some (if startswith "ENSG" gene1 then ("human", "ids")
            else if startswith "ENSMUS" gene1 then ("mouse", "ids")
            else if entirely_uppercase gene1 then ("human", "syms")
            else ("mouse", "syms")).
Proof.
  intros Hne. unfold guessGeneIdType.
  destruct (elements genes) as [|gene1 rest] eqn:He.
  - by apply elements_empty_inv, leibniz_equiv in He.
  - exists gene1. split.
    + apply elem_of_elements. rewrite He. left.
    + unfold classify. by rewrite upper_fixed_entirely_uppercase.
Qed.

Lemma guessGeneIdType_classification_witness :
  ∃ gene1,
    gene1 ∈ ({["Actb"]} : gset string) ∧
    guessGeneIdType {["Actb"]}
    = Some (if startswith "ENSG" gene1 then ("human", "ids")
            else if startswith "ENSMUS" gene1 then ("mouse", "ids")
            else if entirely_uppercase gene1 then ("human", "syms")
            else ("mouse", "syms")).
Proof.
  apply (guessGeneIdType_classification {["Actb"]}).
  intros H. apply (f_equal size) in H. vm_compute in H. discriminate.
Defined.

Example guessGeneIdType_examples :
  guessGeneIdType {["ENSG00000141510"]} = Some ("human", "ids")
  ∧ guessGeneIdType {["ENSMUSG00000059552"]} = Some ("mouse", "ids")
  ∧ guessGeneIdType {["TP53"]} = Some ("human", "syms")
  ∧ guessGeneIdType {["Trp53"]} = Some ("mouse", "syms")
  ∧ guessGeneIdType ∅ = None.
Proof. by vm_compute. Qed.

End guessGeneIdType_claims.

(** ** Reading the identifiers of an input file *)

Section string_facts.
Import PyStr.

Lemma has_char_any c s : has_char c s = any_char (λ a, Ascii.eqb a c) s.
Proof. induction s as [|a s IH]; simpl; [done|]. by rewrite IH. Qed.

Lemma any_char_weaken (p q : ascii → bool) s :
  (∀ c, p c = true → q c = true) → any_char q s = false → any_char p s = false.
Proof.
  intros Hpq. induction s as [|a s IH]; simpl; [done|].
  intros [Hq Hs]%orb_false_elim. rewrite (IH Hs), orb_false_r.
  destruct (p a) eqn:Hp; [|done]. apply Hpq in Hp. congruence.
Qed.

Lemma lstrip_none p s : any_char p s = false → lstrip p s = s.
Proof. destruct s as [|a s]; simpl; [done|]. by intros [-> _]%orb_false_elim. Qed.

Lemma rstrip_none p s : any_char p s = false → rstrip p s = s.
Proof.
  induction s as [|a s IH]; simpl; [done|].
  intros [Ha Hs]%orb_false_elim. rewrite (IH Hs), Ha. by destruct s.
Qed.

Lemma strip_none p s : any_char p s = false → strip p s = s.
Proof. intros H. unfold strip. by rewrite lstrip_none, rstrip_none. Qed.

Lemma split_none sep s : has_char sep s = false → split sep s = [s].
Proof.
  induction s as [|a s IH]; simpl; [done|].
  intros [-> Hs]%orb_false_elim. by rewrite (IH Hs).
Qed.

Lemma slice_to_idemp n s : slice_to n (slice_to n s) = slice_to n s.
Proof.
  revert s. induction n as [|n IH]; intros [|a s]; simpl; [done..|].
  by rewrite IH.
Qed.

Lemma slice_to_length n s : String.length (slice_to n s) ≤ n.
Proof.
  revert s. induction n as [|n IH]; intros [|a s]; simpl; [lia..|].
  specialize (IH s). lia.
Qed.

End string_facts.

Section parseGenes_claims.
Import PyStr Guesser Examples.

Lemma splitOnce_none sep s : has_char sep s = false → splitOnce s sep = [s].
Proof.
  induction s as [|a s IH]; simpl; [done|].
  intros [-> Hs]%orb_false_elim. by rewrite (IH Hs).
Qed.

Lemma lineGeneId_slice sep line :
  lineGeneId sep line = lineGeneId sep (slice_to 50 line).
Proof. unfold lineGeneId. by rewrite slice_to_idemp. Qed.

Lemma lineGeneId_plain sep s :
  any_char (λ c, negb (plain_char sep c)) (slice_to 50 s) = false →
  lineGeneId sep s = slice_to 50 s.
Proof.
  unfold lineGeneId. generalize (slice_to 50 s). clear s. intros w Hplain.
  assert (∀ p, (∀ c, p c = true → negb (plain_char sep c) = true) →
               any_char p w = false) as Hfree.
  { intros p Hp.
    by apply (any_char_weaken p (λ c, negb (plain_char sep c))). }
  assert (∀ d, plain_char sep d = false → has_char d w = false) as Hhas.
  { intros d Hd. rewrite has_char_any. apply Hfree.
    intros c ->%Ascii.eqb_eq. by rewrite Hd. }
  assert (plain_char sep sep = false) as Hsep.
  { unfold plain_char. by rewrite Ascii.eqb_refl. }
  assert (plain_char sep DOT = false) as Hdot.
  { unfold plain_char. cbn. by rewrite !andb_false_r. }
  assert (plain_char sep PIPE = false) as Hpipe.
  { unfold plain_char. cbn. by rewrite !andb_false_r. }
  assert (∀ c, is_space c = true → negb (plain_char sep c) = true) as Hspace.
  { intros c Hc. unfold plain_char. rewrite Hc. cbn.
    by rewrite andb_false_r. }
  rewrite (splitOnce_none sep w (Hhas _ Hsep)). unfold first at 3. cbn [hd].
  rewrite (strip_none (is_char LF) w).
  2:{ apply Hfree. intros c Hc%Ascii.eqb_eq. subst c. by apply Hspace. }
  rewrite (strip_none (is_char CR) w).
  2:{ apply Hfree. intros c Hc%Ascii.eqb_eq. subst c. by apply Hspace. }
  rewrite (strip_none is_space w) by (by apply Hfree).
  rewrite (split_none DOT w (Hhas _ Hdot)). unfold first at 2. cbn [hd].
  by rewrite (split_none PIPE w (Hhas _ Hpipe)).
Qed.

Lemma parseGenes_step_slice sep st l1 l2 :
  slice_to 50 l1 = slice_to 50 l2 →
  parseGenes_step sep st l1 = parseGenes_step sep st l2.
Proof.
  intros H. unfold parseGenes_step.
  by rewrite (lineGeneId_slice sep l1), H, <- lineGeneId_slice.
Qed.

(** C10. The identifier extracted from a line depends on the first 50
    characters of the line only: two lines that agree on them yield the
    same identifier, two files whose lines agree on them yield the same
    set, and a first column that runs over the window with none of the
    characters the extraction reacts to comes out cut at character 50. *)
Theorem parseGenes_first_50 (sep : ascii) :
  (∀ l1 l2, slice_to 50 l1 = slice_to 50 l2 →
            lineGeneId sep l1 = lineGeneId sep l2) ∧
  (∀ lines1 lines2,
     Forall2 (λ l1 l2, slice_to 50 l1 = slice_to 50 l2) lines1 lines2 →
     parseGenes sep lines1 = parseGenes sep lines2) ∧
  (∀ line,
     any_char (λ c, negb (plain_char sep c)) (slice_to 50 line) = false →
     lineGeneId sep line = slice_to 50 line ∧
     String.length (lineGeneId sep line) ≤ 50).
Proof.
  split; [|split].
  - intros l1 l2 H.
    by rewrite (lineGeneId_slice sep l1), H, <- lineGeneId_slice.
  - intros lines1 lines2 H. unfold parseGenes. f_equal.
    generalize (false, (∅ : gset string)).
    induction H as [|l1 l2 ls1 ls2 Hl _ IH]; intros st; simpl; [done|].
    by rewrite (parseGenes_step_slice sep st l1 l2 Hl).
  - intros line Hplain. rewrite (lineGeneId_plain sep line Hplain).
    split; [done|]. apply slice_to_length.
Qed.

Lemma parseGenes_first_50_witness :
  lineGeneId TAB line_a = lineGeneId TAB line_b
  ∧ parseGenes TAB [header_line; line_a] = parseGenes TAB [header_line; line_b]
  ∧ lineGeneId TAB line_a = slice_to 50 line_a
  ∧ String.length (lineGeneId TAB line_a) ≤ 50.
Proof.
  destruct (parseGenes_first_50 TAB) as (Hline & Hfile & Hcut).
  split; [|split].
  - apply Hline. reflexivity.
  - apply Hfile. repeat constructor.
  - apply Hcut. reflexivity.
Defined.

Example parseGenes_truncates :
  first (splitOnce line_a TAB) = first_50 +:+ "cdefgh"
  ∧ lineGeneId TAB line_a = first_50
  ∧ parseGenes TAB [header_line; line_a; line_b] = {[ first_50 ]}.
Proof.
  split; [by vm_compute|]. split; [by vm_compute|].
  unfold parseGenes. cbn [foldl parseGenes_step fst snd negb].
  replace (lineGeneId TAB line_a) with first_50 by (by vm_compute).
  replace (lineGeneId TAB line_b) with first_50 by (by vm_compute).
  set_solver.
Qed.

Example parseGenes_strips_version :
  lineGeneId TAB ("ENSG00000141510.17|TP53" +:+ String TAB "3")
  = "ENSG00000141510".
Proof. by vm_compute. Qed.

End parseGenes_claims.

(** ** Writing a signature table and reading it back *)

Section roundtrip_facts.
Import PyStr Signatures.

Lemma app_cons a s t : String a s +:+ t = String a (s +:+ t).
Proof. reflexivity. Qed.

Lemma app_empty t : EmptyString +:+ t = t.
Proof. reflexivity. Qed.

Lemma app_assoc_str s t u : (s +:+ t) +:+ u = s +:+ (t +:+ u).
Proof.
  induction s as [|a s IH]; [done|]. by rewrite !app_cons, IH.
Qed.

Lemma has_char_app c s t : has_char c (s +:+ t) = has_char c s || has_char c t.
Proof.
  induction s as [|a s IH]; [done|].
  rewrite app_cons. simpl. by rewrite IH, orb_assoc.
Qed.

Lemma lines_app_line s rest :
  has_char LF s = false →
  lines (s +:+ String LF rest) = (s +:+ String LF EmptyString) :: lines rest.
Proof.
  induction s as [|a s IH]; [done|].
  rewrite !app_cons. simpl. intros [Ha Hs]%orb_false_elim.
  rewrite Ha, (IH Hs). done.
Qed.

Lemma rstrip_line s :
  has_char LF s = false →
  rstrip (is_char LF) (s +:+ String LF EmptyString) = s.
Proof.
  induction s as [|a s IH]; [done|].
  rewrite app_cons. cbn [rstrip has_char]. intros [Ha Hs]%orb_false_elim.
  rewrite (IH Hs). destruct s; [|done].
  unfold is_char. rewrite Ascii.eqb_sym in Ha. by rewrite Ha.
Qed.

Lemma split_app_sep sep k v :
  has_char sep k = false →
  split sep (k +:+ String sep v) = k :: split sep v.
Proof.
  induction k as [|a k IH].
  - intros _. rewrite app_empty. simpl. by rewrite Ascii.eqb_refl.
  - rewrite app_cons. simpl. intros [Ha Hk]%orb_false_elim.
    by rewrite Ha, (IH Hk).
Qed.

Lemma split_join sep l :
  l ≠ [] → Forall (λ x, has_char sep x = false) l →
  split sep (join (String sep EmptyString) l) = l.
Proof.
  induction l as [|x l IH]; [done|]. intros _ Hall.
  apply Forall_cons in Hall as [Hx Hl].
  destruct l as [|y l].
  - by apply split_none.
  - change (join (String sep EmptyString) (x :: y :: l))
      with (x +:+ String sep EmptyString +:+ join (String sep EmptyString) (y :: l)).
    rewrite app_cons, app_empty, (split_app_sep sep x _ Hx).
    f_equal. by apply IH.
Qed.

Lemma has_char_join c sep l :
  c ≠ sep → Forall (λ x, has_char c x = false) l →
  has_char c (join (String sep EmptyString) l) = false.
Proof.
  intros Hc. induction l as [|x l IH]; [done|]. intros Hall.
  apply Forall_cons in Hall as [Hx Hl].
  destruct l as [|y l]; [done|].
  change (join (String sep EmptyString) (x :: y :: l))
    with (x +:+ String sep EmptyString +:+ join (String sep EmptyString) (y :: l)).
  rewrite has_char_app, Hx, app_cons, app_empty. cbn [has_char orb].
  rewrite (IH Hl), orb_false_r. apply Ascii.eqb_neq. congruence.
Qed.

Lemma startswith_hash_app k t :
  startswith "#" (k +:+ String TAB t) = startswith "#" k.
Proof. by destruct k. Qed.

(** Reading back the line written for one release. *)
Lemma parseSignatures_uniqLine verToGenes key vals :
  name_ok key → vals ≠ ∅ → (∀ x, x ∈ vals → id_ok x) →
  parseSignatures_line verToGenes (uniqLine key vals)
  = Some (<[key := elements vals]> verToGenes).
Proof.
  intros (Hhash & Htab & Hlf & _) Hne Hids.
  assert (Forall id_ok (elements vals)) as Hall.
  { apply Forall_forall. intros x Hx. by apply Hids, elem_of_elements. }
  assert (elements vals ≠ []) as Hnil.
  { intros He. by apply Hne, leibniz_equiv, elements_empty_inv. }
  set (J := join "|" (elements vals)).
  assert (has_char TAB J = false) as HJtab.
  { apply has_char_join; [done|]. eapply Forall_impl; [exact Hall|].
    by intros x (_ & ? & _). }
  assert (has_char LF J = false) as HJlf.
  { apply has_char_join; [done|]. eapply Forall_impl; [exact Hall|].
    by intros x (_ & _ & ? & _). }
  unfold parseSignatures_line, uniqLine. fold J.
  rewrite startswith_hash_app, Hhash.
  replace (key +:+ String TAB (J +:+ String LF EmptyString))
    with ((key +:+ String TAB J) +:+ String LF EmptyString)
    by (by rewrite app_assoc_str, app_cons).
  rewrite rstrip_line.
  2:{ rewrite has_char_app, Hlf. simpl. by rewrite HJlf. }
  rewrite (split_app_sep TAB key J Htab), (split_none TAB J HJtab).
  do 2 f_equal. apply (split_join PIPE); [done|].
  eapply Forall_impl; [exact Hall|]. by intros x (? & _).
Qed.

Lemma parseSignatures_fold (kvs : list (string * gset string)) verToGenes :
  Forall (λ kv, name_ok kv.1 ∧ kv.2 ≠ ∅ ∧ ∀ x, x ∈ kv.2 → id_ok x) kvs →
  foldl (λ acc line, verToGenes ← acc; parseSignatures_line verToGenes line)
        (Some verToGenes)
        (lines (foldr (λ kv out, uniqLine kv.1 kv.2 +:+ out) EmptyString kvs))
  = Some (foldl (λ m kv, <[kv.1 := elements kv.2]> m) verToGenes kvs).
Proof.
  intros Hall. revert verToGenes.
  induction Hall as [|[key vals] kvs (Hname & Hne & Hids) _ IH];
    intros verToGenes; [done|].
  cbn [foldr fst snd] in *.
  assert (uniqLine key vals
          = (key +:+ String TAB (join "|" (elements vals))) +:+ String LF EmptyString)
    as Hline.
  { unfold uniqLine. by rewrite app_assoc_str, app_cons. }
  rewrite Hline at 1. rewrite app_assoc_str, app_cons, app_empty.
  rewrite lines_app_line.
  2:{ destruct Hname as (_ & _ & Hlf & _).
      rewrite has_char_app, Hlf. simpl.
      apply has_char_join; [done|]. apply Forall_forall.
      intros x Hx%elem_of_elements. by destruct (Hids x Hx) as (_ & _ & ? & _). }
  rewrite <- Hline. cbn [foldl mbind option_bind].
  rewrite parseSignatures_uniqLine by done. apply IH.
Qed.

Lemma parseSignatures_writeUniqs dictSet :
  (∀ R S, dictSet !! R = Some S → name_ok R ∧ S ≠ ∅ ∧ ∀ x, x ∈ S → id_ok x) →
  parseSignatures (writeUniqs dictSet) = Some (elements <$> dictSet).
Proof.
  intros Hok. unfold parseSignatures, writeUniqs.
  rewrite parseSignatures_fold.
  - f_equal. apply map_eq. intros k.
    by rewrite (uniqVals_lookup dictSet (λ _ v, elements v)), lookup_fmap.
  - apply Forall_forall. intros [R S] Hin%elem_of_map_to_list. by apply Hok.
Qed.

End roundtrip_facts.

Section roundtrip_claims.
Import PyStr Signatures Examples.

(** C3, as stated, fails in two ways.  A release with the empty unique
    set is written as a line with an empty second field, which is read
    back as the list with the empty string as its one element.  And an
    identifier with the separator of the list in it is read back as two
    identifiers. *)
Lemma roundtrip_counterexample :
  (writeUniqs sign_with_empty = "gencode-34" +:+ String TAB (String LF "")
   ∧ parseSignatures (writeUniqs sign_with_empty) = Some {["gencode-34" := [""]]}
   ∧ (list_to_set <$> ({["gencode-34" := [""]]} : gmap string (list string))
        : gmap string (gset string)) ≠ sign_with_empty)
  ∧ (parseSignatures (writeUniqs sign_with_pipe) = Some {["gencode-34" := ["A"; "B"]]}
     ∧ (list_to_set <$> ({["gencode-34" := ["A"; "B"]]} : gmap string (list string))
          : gmap string (gset string)) ≠ sign_with_pipe).
Proof.
  split; [split; [|split]|split].
  - by vm_compute.
  - by vm_compute.
  - intros H.
    apply (f_equal (λ m : gmap string (gset string), size <$> m !! "gencode-34")) in H.
    vm_compute in H. discriminate.
  - by vm_compute.
  - intros H.
    apply (f_equal (λ m : gmap string (gset string), size <$> m !! "gencode-34")) in H.
    vm_compute in H. discriminate.
Qed.

(** C3, amended. When every release name and identifier is free of the
    separators of the file format, no release name starts a comment
    line, and every unique set has an element, writing the table and
    reading the text back succeeds and yields, for every release, a
    duplicate-free list of the identifiers of its set: as a mapping from
    releases to sets it is the table written. *)
Theorem writeUniqs_parseSignatures_roundtrip (dictSet : gmap string (gset string)) :
  (∀ R S, dictSet !! R = Some S → name_ok R ∧ S ≠ ∅ ∧ ∀ x, x ∈ S → id_ok x) →
  ∃ verToGenes,
    parseSignatures (writeUniqs dictSet) = Some verToGenes ∧
    (list_to_set <$> verToGenes : gmap string (gset string)) = dictSet ∧
    ∀ R l, verToGenes !! R = Some l → NoDup l.
Proof.
  intros Hok. exists (elements <$> dictSet). split; [|split].
  - by apply parseSignatures_writeUniqs.
  - rewrite <- map_fmap_compose. apply map_eq. intros R.
    rewrite lookup_fmap. destruct (dictSet !! R) as [S|]; [|done].
    simpl. f_equal. apply list_to_set_elements_L.
  - intros R l. rewrite lookup_fmap.
    intros (S & _ & ->)%fmap_Some. apply NoDup_elements.
Qed.

Lemma writeUniqs_parseSignatures_roundtrip_witness :
  ∃ verToGenes,
    parseSignatures (writeUniqs sign_two) = Some verToGenes ∧
    (list_to_set <$> verToGenes : gmap string (gset string)) = sign_two ∧
    ∀ R l, verToGenes !! R = Some l → NoDup l.
Proof.
  apply (writeUniqs_parseSignatures_roundtrip sign_two).
  apply map_Forall_insert_2; [|apply map_Forall_insert_2; [|apply map_Forall_empty]].
  - split; [by vm_compute|]. split.
    + intros H. apply (f_equal size) in H. vm_compute in H. discriminate.
    + intros x ->%elem_of_singleton. by vm_compute.
  - split; [by vm_compute|]. split.
    + intros H. apply (f_equal size) in H. vm_compute in H. discriminate.
    + intros x ->%elem_of_singleton. by vm_compute.
Defined.

Example writeUniqs_sign_two :
  parseSignatures (writeUniqs sign_two)
  = Some (<["gencode-32" := ["A"]]> (<["gencode-33" := ["C"]]> ∅)).
Proof. by vm_compute. Qed.

End roundtrip_claims.

(** ** Sorting with Python's order *)

Section py_order_facts.
Import PyOrd.
Context {A : Type} `{Lexico A, !TrichotomyT (@lexico A _), !StrictOrder (@lexico A _)}.

Global Instance py_le_refl : Reflexive (@py_le A _).
Proof. intros x. by right. Qed.

Global Instance py_le_trans : Transitive (@py_le A _).
Proof.
intros x y z [Hxy| ->] [Hyz| ->]; [left; by trans y|by left..|by right].
Qed.

Global Instance py_le_total : Total (@py_le A _).
Proof.
intros x y. destruct (trichotomyT lexico x y) as [[?| ->]|?].
- left. by left.
- left. by right.
- right. by left.
Qed.

Global Instance py_le_antisym : AntiSymm (=) (@py_le A _).
Proof.
intros x y [Hxy|Heq] [Hyx|Heq']; try done.
destruct (irreflexivity lexico x). by trans y.
Qed.

Global Instance py_ge_trans : Transitive (@py_ge A _).
Proof. intros x y z Hxy Hyz. unfold py_ge in *. by trans y. Qed.

Global Instance py_ge_total : Total (@py_ge A _).
Proof. intros x y. unfold py_ge. apply (total py_le). Qed.

Global Instance py_ge_antisym : AntiSymm (=) (@py_ge A _).
Proof. intros x y Hxy Hyx. unfold py_ge in *. by apply (anti_symm py_le). Qed.

Lemma py_sort_Permutation (l : list A) : py_sort l ≡ₚ l.
Proof. apply merge_sort_Permutation. Qed.

Lemma py_sort_StronglySorted (l : list A) : StronglySorted py_le (py_sort l).
Proof. apply (StronglySorted_merge_sort py_le). Qed.

Lemma py_sort_reverse_Permutation (l : list A) : py_sort_reverse l ≡ₚ l.
Proof. apply merge_sort_Permutation. Qed.

(** The sorted list depends on the elements only, not on their order. *)
Lemma py_sort_order_independent (l1 l2 : list A) :
  l1 ≡ₚ l2 → py_sort l1 = py_sort l2.
Proof.
intros Hp. apply (StronglySorted_unique py_le).
- apply py_sort_StronglySorted.
- apply py_sort_StronglySorted.
- by rewrite !py_sort_Permutation.
Qed.

(** The head of a sorted list is a least element of the list. *)
Lemma py_sort_head (l : list A) t rest :
  py_sort l = t :: rest → t ∈ l ∧ ∀ x, x ∈ l → py_le t x.
Proof.
intros Hs. pose proof (py_sort_Permutation l) as Hp.
pose proof (py_sort_StronglySorted l) as Hsorted. rewrite Hs in Hp, Hsorted.
split.
- rewrite <- Hp. left.
- intros x Hx. rewrite <- Hp in Hx.
  apply StronglySorted_inv in Hsorted as [_ Hall].
  apply elem_of_cons in Hx as [->|Hx]; [done|].
  rewrite Forall_forall in Hall. by apply Hall.
Qed.

(** The head of a list sorted in reverse is a greatest element. *)
Lemma py_sort_reverse_head (l : list A) t rest :
  py_sort_reverse l = t :: rest → t ∈ l ∧ ∀ x, x ∈ l → py_le x t.
Proof.
intros Hs. pose proof (py_sort_reverse_Permutation l) as Hp.
pose proof (StronglySorted_merge_sort py_ge l) as Hsorted.
fold (py_sort_reverse l) in Hsorted. rewrite Hs in Hp, Hsorted.
split.
- rewrite <- Hp. left.
- intros x Hx. rewrite <- Hp in Hx.
  apply StronglySorted_inv in Hsorted as [_ Hall].
  apply elem_of_cons in Hx as [->|Hx]; [done|].
  rewrite Forall_forall in Hall. by apply Hall.
Qed.

Lemma py_sort_nonempty (l : list A) : l ≠ [] → py_sort l ≠ [].
Proof.
intros Hne Hs. pose proof (py_sort_Permutation l) as Hp. rewrite Hs in Hp.
by apply Permutation_nil_l in Hp.
Qed.

Lemma py_sort_reverse_nonempty (l : list A) : l ≠ [] → py_sort_reverse l ≠ [].
Proof.
intros Hne Hs. pose proof (py_sort_reverse_Permutation l) as Hp.
rewrite Hs in Hp. by apply Permutation_nil_l in Hp.
Qed.

(** A least element of a list is unique. *)
Lemma least_unique (l : list A) x y :
  x ∈ l → (∀ z, z ∈ l → py_le x z) → y ∈ l → (∀ z, z ∈ l → py_le y z) → x = y.
Proof. intros Hx Hminx Hy Hminy. apply (anti_symm py_le); auto. Qed.

End py_order_facts.

(** ** Insertion-ordered dictionaries *)

Section odict_facts.
Import ODict.
Context {V : Type}.
Implicit Types d : list (string * V).

Lemma get_update default (f : V → V) k k' d :
  get k' (update default f k d)
  = if decide (k = k') then Some (f (from_option id default (get k d)))
    else get k' d.
Proof.
induction d as [|[k0 v0] d IH]; simpl.
- by repeat case_decide.
- destruct (decide (k0 = k)) as [->|Hk0]; simpl.
  + destruct (decide (k = k')) as [->|Hk']; [done|done].
  + destruct (decide (k0 = k')) as [->|Hk0']; simpl.
    * by rewrite decide_False by congruence.
    * apply IH.
Qed.

Lemma update_keys default (f : V → V) k d :
  (update default f k d).*1 = if decide (k ∈ d.*1) then d.*1 else d.*1 ++ [k].
Proof.
induction d as [|[k0 v0] d IH].
- cbn. case_decide as Hin; [|reflexivity]. exfalso. revert Hin. apply not_elem_of_nil.
- cbn [update]. destruct (decide (k0 = k)) as [->|Hk0].
  + cbn. destruct (decide (k ∈ k :: d.*1)) as [_|Hin]; [done|]. destruct Hin. left.
  + cbn [fmap list_fmap fst]. rewrite IH.
    destruct (decide (k ∈ d.*1)) as [Hin|Hin].
    * rewrite decide_True; [done|]. by right.
    * rewrite decide_False; [done|].
      intros [?|?]%elem_of_cons; congruence.
Qed.

Lemma update_NoDup default (f : V → V) k d :
  NoDup d.*1 → NoDup (update default f k d).*1.
Proof.
intros Hnd. rewrite update_keys. case_decide as Hin; [done|].
apply NoDup_app. split; [done|]. split; [|apply NoDup_singleton].
intros x Hx ->%list_elem_of_singleton. done.
Qed.

Lemma get_None k d : get k d = None ↔ k ∉ d.*1.
Proof.
induction d as [|[k0 v0] d IH].
- split; [|done]. intros _ ?%elem_of_nil. done.
- cbn [get]. destruct (decide (k0 = k)) as [->|Hk0].
  + split; [done|]. intros Hn. destruct Hn. left.
  + rewrite IH. cbn. split.
    * intros Hn [?|?]%elem_of_cons; congruence.
    * intros Hn Hin. apply Hn. by right.
Qed.

Lemma elem_of_get k v d : NoDup d.*1 → (k, v) ∈ d ↔ get k d = Some v.
Proof.
induction d as [|[k0 v0] d IH]; intros Hnd.
- split; [by intros ?%elem_of_nil|done].
- apply NoDup_cons in Hnd as [Hk0 Hnd]. cbn [get].
  destruct (decide (k0 = k)) as [->|Hk].
  + split.
    * intros [?|Hin]%elem_of_cons; [by simplify_eq|].
      destruct Hk0. apply list_elem_of_fmap. by exists (k, v).
    * intros ?. simplify_eq. left.
  + rewrite <- (IH Hnd). split.
    * intros [?|Hin]%elem_of_cons; [by simplify_eq|done].
    * intros ?. by right.
Qed.
End odict_facts.

(** ** The canonical transcript selector *)

Section canon_facts.
Import PyStr PyOrd ODict Exn PyInt Canon.
Implicit Types d : list (string * list (Z * list string)).

Lemma transcriptsOf_cons transToGene line lines geneId :
  transcriptsOf transToGene (line :: lines) geneId
  = match parseLine transToGene line with
    | Ok p => if decide (p.1 = geneId) then [p.2] else []
    | Raise _ => []
    end ++ transcriptsOf transToGene lines geneId.
Proof.
unfold transcriptsOf. cbn [omap list_omap].
destruct (parseLine transToGene line) as [p|e]; [|done].
by destruct (decide (p.1 = geneId)).
Qed.

(** The buckets after the first loop. *)
Lemma buckets_get transToGene lines d d' :
  foldM (bucketLine transToGene) d lines = Ok d' →
  ∀ geneId, get geneId d' = extend (get geneId d) (transcriptsOf transToGene lines geneId).
Proof.
revert d. induction lines as [|line lines IH]; intros d Hf geneId.
- simplify_eq/=. unfold transcriptsOf. simpl. unfold extend.
  destruct (get geneId _); simpl; [by rewrite app_nil_r|done].
- cbn [foldM] in Hf. unfold bucketLine at 1 in Hf.
  rewrite transcriptsOf_cons.
  destruct (parseLine transToGene line) as [[g t]|e]; [|done].
  cbn in Hf. rewrite (IH _ Hf geneId). unfold append_to.
  rewrite get_update. cbn [fst snd].
  destruct (decide (g = geneId)) as [->|Hg].
  + unfold extend. simpl.
    destruct (get geneId d) as [l|]; simpl.
    * by rewrite <- !app_assoc.
    * done.
  + done.
Qed.

Lemma buckets_NoDup transToGene lines d d' :
  foldM (bucketLine transToGene) d lines = Ok d' → NoDup d.*1 → NoDup d'.*1.
Proof.
revert d. induction lines as [|line lines IH]; intros d Hf Hnd.
- by simplify_eq/=.
- cbn [foldM] in Hf. unfold bucketLine at 1 in Hf.
  destruct (parseLine transToGene line) as [[g t]|e]; [|done].
  cbn in Hf. apply (IH _ Hf). by apply update_NoDup.
Qed.

(** The new row of a gene carries the gene in its fourth column. *)
Lemma makeRow_gene geneId canonTransRow newRow :
  makeRow geneId canonTransRow = Ok newRow → newRow !! 3 = Some geneId.
Proof.
unfold makeRow. intros H.
repeat (destruct canonTransRow as [|? canonTransRow]; try done).
destruct (blocks _ _); simplify_eq/=. done.
Qed.

Lemma canonicalRow_inv geneId transList newRow :
  canonicalRow geneId transList = Ok newRow →
  ∃ canon, canon ∈ transList ∧ (∀ t, t ∈ transList → py_le canon t) ∧
           makeRow geneId canon.2 = Ok newRow.
Proof.
unfold canonicalRow. intros H.
destruct (py_sort transList) as [|canon rest] eqn:Hs; [done|].
apply py_sort_head in Hs as [Hin Hmin]. eauto.
Qed.

(** A run of the second loop that completes yields one row per bucket. *)
Lemma yieldRows_rows d out :
  yieldRows d = {| yielded := out; raised := None |} →
  Forall2 (λ kv newRow, canonicalRow kv.1 kv.2 = Ok newRow) d out.
Proof.
revert out. induction d as [|kv d IH]; intros out H; simpl in H.
- simplify_eq. constructor.
- destruct (canonicalRow kv.1 kv.2) as [newRow|e] eqn:Hrow; [|done].
  destruct (yieldRows d) as [rows r] eqn:Hd. simplify_eq/=.
  constructor; [done|]. by apply IH.
Qed.

Lemma rowsOf_bucket d out geneId transList :
  NoDup d.*1 →
  Forall2 (λ kv newRow, canonicalRow kv.1 kv.2 = Ok newRow) d out →
  (geneId, transList) ∈ d →
  ∃ newRow, canonicalRow geneId transList = Ok newRow ∧ rowsOf geneId out = [newRow].
Proof.
intros Hnd Hrows. revert Hnd.
assert (∀ d out, Forall2 (λ kv newRow, canonicalRow kv.1 kv.2 = Ok newRow) d out →
                 geneId ∉ d.*1 → rowsOf geneId out = []) as Hnone.
{ clear. intros d out H. induction H as [|[g l] row d out Hrow _ IH]; [done|].
  intros Hnotin. unfold rowsOf. rewrite filter_cons.
  apply canonicalRow_inv in Hrow as (_ & _ & _ & Hrow%makeRow_gene).
  simpl in *. rewrite decide_False.
  - apply IH. intros Hin. apply Hnotin. by right.
  - rewrite Hrow. intros ?. simplify_eq. apply Hnotin. left. }
induction Hrows as [|[g l] row d out Hrow Hrest IH]; intros Hnd Hin.
- by apply elem_of_nil in Hin.
- apply NoDup_cons in Hnd as [Hg Hnd]. simpl in *.
  pose proof Hrow as (_ & _ & _ & Hgene%makeRow_gene)%canonicalRow_inv.
  unfold rowsOf. rewrite filter_cons.
  apply elem_of_cons in Hin as [Heq|Hin].
  + simplify_eq. exists row. split; [done|].
    rewrite decide_True by done. f_equal. by apply (Hnone d).
  + assert (g ≠ geneId) as Hne.
    { intros ->. apply Hg. apply list_elem_of_fmap. by exists (geneId, transList). }
    rewrite decide_False by (rewrite Hgene; congruence).
    by apply IH.
Qed.

(** The characterization of a run that completes. *)
Lemma iterGencodeBed_run transToGene lines out geneId :
  iterGencodeBed transToGene lines = {| yielded := out; raised := None |} →
  transcriptsOf transToGene lines geneId ≠ [] →
  ∃ canon newRow,
    canon ∈ transcriptsOf transToGene lines geneId ∧
    (∀ t, t ∈ transcriptsOf transToGene lines geneId → py_le canon t) ∧
    makeRow geneId canon.2 = Ok newRow ∧
    rowsOf geneId out = [newRow].
Proof.
unfold iterGencodeBed. intros Hrun Hne.
destruct (foldM (bucketLine transToGene) [] lines) as [d|e] eqn:Hd; [|done].
pose proof (buckets_get _ _ _ _ Hd geneId) as Hget.
pose proof (buckets_NoDup _ _ _ _ Hd (NoDup_nil_2)) as Hnd.
simpl in Hget. unfold extend in Hget.
destruct (transcriptsOf transToGene lines geneId) as [|t ts] eqn:Hts; [done|].
simpl in Hget. apply (elem_of_get _ _ _ Hnd) in Hget.
destruct (rowsOf_bucket d out geneId (t :: ts) Hnd (yieldRows_rows _ _ Hrun) Hget)
  as (newRow & Hrow & Hout).
apply canonicalRow_inv in Hrow as (canon & Hin & Hmin & Hmake).
exists canon, newRow. done.
Qed.

End canon_facts.

Section canon_claims.
Import PyStr PyOrd ODict Exn PyInt Canon Examples.

(** X2. The rank of a transcript is computed from its gene, so the
    transcripts of a gene all have the same rank and the order of their rows
    alone decides which one is canonical. *)
Lemma transcriptsOf_same_rank transToGene lines geneId t t' :
  t ∈ transcriptsOf transToGene lines geneId →
  t' ∈ transcriptsOf transToGene lines geneId → t.1 = t'.1.
Proof.
assert (∀ t, t ∈ transcriptsOf transToGene lines geneId →
             Some t.1 = py_int (filter_chars is_digit geneId)) as Hrank.
{ intros u (line & _ & Hu)%list_elem_of_omap.
  unfold parseLine in Hu.
  destruct (split TAB line !! 1) as [transId|]; [|done]. simpl in Hu.
  destruct (transToGene !! transId) as [g|]; [|done]. simpl in Hu.
  destruct (py_int (filter_chars is_digit g)) as [n|] eqn:Hn; [|done].
  simpl in Hu. case_decide; simplify_eq/=. by rewrite Hn. }
intros Ht Ht'. apply Hrank in Ht, Ht'. congruence.
Qed.

(** X1. In a run that completes, every gene with at least one transcript
    row has exactly one output row, built from the transcript that comes
    first when the transcripts of the gene are sorted by (rank, row): its
    rank is the least rank, rows break ties in the order of their fields,
    and the same row is emitted whatever the order of the input rows. *)
Theorem iterGencodeBed_canonical transToGene lines out geneId :
  iterGencodeBed transToGene lines = {| yielded := out; raised := None |} →
  transcriptsOf transToGene lines geneId ≠ [] →
  ∃ canon newRow,
    canon ∈ transcriptsOf transToGene lines geneId ∧
    (∀ t, t ∈ transcriptsOf transToGene lines geneId → py_le canon t) ∧
    (∀ t, t ∈ transcriptsOf transToGene lines geneId → (canon.1 ≤ t.1)%Z) ∧
    makeRow geneId canon.2 = Ok newRow ∧
    rowsOf geneId out = [newRow] ∧
    ∀ lines' out',
      lines' ≡ₚ lines →
      iterGencodeBed transToGene lines' = {| yielded := out'; raised := None |} →
      rowsOf geneId out' = [newRow].
Proof.
intros Hrun Hne.
destruct (iterGencodeBed_run _ _ _ _ Hrun Hne)
  as (canon & newRow & Hin & Hmin & Hmake & Hout).
exists canon, newRow. split; [done|]. split; [done|]. split.
{ intros t Ht. destruct (Hmin t Ht) as [[Hlt|[Heq _]]| ->]; [|lia..].
  unfold lexico, Z_lexico in Hlt. lia. }
split; [done|]. split; [done|].
intros lines' out' Hperm Hrun'.
assert (transcriptsOf transToGene lines' geneId
        ≡ₚ transcriptsOf transToGene lines geneId) as Hts.
{ unfold transcriptsOf. by rewrite Hperm. }
destruct (iterGencodeBed_run transToGene lines' out' geneId Hrun')
  as (canon' & newRow' & Hin' & Hmin' & Hmake' & Hout').
{ intros Hnil. rewrite Hnil in Hts. by apply Permutation_nil_l in Hts. }
rewrite Hts in Hin'.
assert (canon' = canon) as ->.
{ apply (least_unique (transcriptsOf transToGene lines geneId)); try done.
  intros t Ht. apply Hmin'. by rewrite Hts. }
congruence.
Qed.

Lemma iterGencodeBed_canonical_witness :
  ∃ canon newRow,
    canon ∈ transcriptsOf trans_to_gene [trans1; trans2; trans3] "ENSG00000000005.5" ∧
    (∀ t, t ∈ transcriptsOf trans_to_gene [trans1; trans2; trans3] "ENSG00000000005.5" →
          py_le canon t) ∧
    (∀ t, t ∈ transcriptsOf trans_to_gene [trans1; trans2; trans3] "ENSG00000000005.5" →
          (canon.1 ≤ t.1)%Z) ∧
    makeRow "ENSG00000000005.5" canon.2 = Ok newRow ∧
    rowsOf "ENSG00000000005.5"
      [["chrX"; "120"; "500"; "ENSG00000000005.5"; "0"; "+"; "150"; "450"; "1";
        "380"; "120"; "TNMD"];
       ["chrX"; "900"; "1000"; "ENSG00000000003.14"; "0"; "-"; "900"; "1000"; "1";
        "100"; "900"; "TSPAN6"]]
    = [newRow] ∧
    ∀ lines' out',
      lines' ≡ₚ [trans1; trans2; trans3] →
      iterGencodeBed trans_to_gene lines' = {| yielded := out'; raised := None |} →
      rowsOf "ENSG00000000005.5" out' = [newRow].
Proof.
apply (iterGencodeBed_canonical trans_to_gene [trans1; trans2; trans3]).
- vm_compute. reflexivity.
- vm_compute. discriminate.
Defined.

Lemma transcriptsOf_same_rank_witness :
  (55%Z, split TAB trans1).1 = (55%Z, split TAB trans2).1.
Proof.
apply (transcriptsOf_same_rank trans_to_gene [trans1; trans2; trans3]
         "ENSG00000000005.5").
- vm_compute. left.
- vm_compute. right. left.
Defined.

(** The two transcripts of the first gene have rank 55; the row that
    starts with "1370" is before the one that starts with "585", in either
    input order. *)
Example iterGencodeBed_examples :
  yielded (iterGencodeBed trans_to_gene [trans1; trans2; trans3])
  = [["chrX"; "120"; "500"; "ENSG00000000005.5"; "0"; "+"; "150"; "450"; "1";
      "380"; "120"; "TNMD"];
     ["chrX"; "900"; "1000"; "ENSG00000000003.14"; "0"; "-"; "900"; "1000"; "1";
      "100"; "900"; "TSPAN6"]]
  ∧ yielded (iterGencodeBed trans_to_gene [trans3; trans2; trans1])
    = [["chrX"; "900"; "1000"; "ENSG00000000003.14"; "0"; "-"; "900"; "1000"; "1";
        "100"; "900"; "TSPAN6"];
       ["chrX"; "120"; "500"; "ENSG00000000005.5"; "0"; "+"; "150"; "450"; "1";
        "380"; "120"; "TNMD"]]
  ∧ iterGencodeBed trans_to_gene [trans1; tabbed ["585"; "ENST99"]]
    = {| yielded := []; raised := Some KeyError |}.
Proof. vm_compute. done. Qed.

End canon_claims.

(** ** The locus index *)

Section locus_sorted.
Import PyStr PyOrd ODict Exn PyInt Locus Examples.

Lemma StronglySorted_weaken {A} (R R' : relation A) (l : list A) :
  (∀ a b, R a b → R' a b) → StronglySorted R l → StronglySorted R' l.
Proof.
intros HR. induction 1 as [|a l _ IH Hall]; constructor; [done|].
eapply Forall_impl; [exact Hall|]. intros b. apply HR.
Qed.

(** Python's order on the entries, spelled out field by field. *)
Lemma py_le_entry_le (a b : Z * Z * string * string) : py_le a b ↔ entry_le a b.
Proof.
destruct a as [[[s1 e1] st1] sy1], b as [[[s2 e2] st2] sy2].
unfold entry_le, py_le. cbn [fst snd].
unfold lexico at 1, prod_lexico. cbn [fst snd].
unfold lexico at 1, prod_lexico. cbn [fst snd].
unfold lexico at 1, prod_lexico. cbn [fst snd].
unfold lexico at 1 2, Z_lexico.
split.
- intros [[[[?|[-> ?]]|[? ?]]|[? ?]]|?]; simplify_eq; auto 10.
- intros [?|[-> [?|[-> [?|[-> [?| ->]]]]]]]; auto 10.
Qed.

Lemma bedToJson_inv geneToSym lines sortedLocs :
  bedToJson geneToSym lines = Ok sortedLocs →
  ∃ bySym symLocs,
    foldM (indexRow geneToSym) [] (iterBedRows lines) = Ok bySym ∧
    collect bySym = Ok symLocs ∧
    sortedLocs = (λ kv : string * list (Z * Z * string * string),
                    (kv.1, py_sort kv.2)) <$> symLocs.
Proof.
unfold bedToJson. intros H.
destruct (foldM (indexRow geneToSym) [] (iterBedRows lines)) as [bySym|]; [|done].
cbn [bind] in H. destruct (collect bySym) as [symLocs|] eqn:Hc; [|done].
cbn [bind] in H. injection H as <-. by exists bySym, symLocs.
Qed.

(** X3. The list of every chromosome of the index is sorted by the order
    of the tuples (start, end, strand, symbol): by start, with ties broken
    by the remaining fields in tuple order; so the start positions never
    decrease along the list. *)
Theorem bedToJson_sorted geneToSym lines sortedLocs chrom geneList :
  bedToJson geneToSym lines = Ok sortedLocs →
  (chrom, geneList) ∈ sortedLocs →
  StronglySorted entry_le geneList ∧
  StronglySorted Z.le ((λ e : Z * Z * string * string, e.1.1.1) <$> geneList).
Proof.
intros (bySym & symLocs & _ & _ & ->)%bedToJson_inv Hin.
apply list_elem_of_fmap in Hin as ([chrom' l] & Heq & _). simplify_eq/=.
assert (StronglySorted entry_le (py_sort l)) as Hsorted.
{ eapply StronglySorted_weaken; [|apply py_sort_StronglySorted].
  intros a b. apply py_le_entry_le. }
split; [done|].
induction Hsorted as [|e es _ IH Hall]; [constructor|].
cbn. constructor; [done|].
apply Forall_fmap. eapply Forall_impl; [exact Hall|].
intros e' [?|[? _]]; simpl; lia.
Qed.

Lemma bedToJson_sorted_witness :
  StronglySorted entry_le
    [(400%Z, 900%Z, "+", "WRAP53"); (1050%Z, 1300%Z, "-", "TP53")] ∧
  StronglySorted Z.le
    ((λ e : Z * Z * string * string, e.1.1.1)
       <$> [(400%Z, 900%Z, "+", "WRAP53"); (1050%Z, 1300%Z, "-", "TP53")]).
Proof.
apply (bedToJson_sorted gene_to_sym [bed1; bed2; bed3]
         [("chr17", [(400%Z, 900%Z, "+", "WRAP53"); (1050%Z, 1300%Z, "-", "TP53")])]
         "chr17").
- vm_compute. reflexivity.
- left.
Defined.

End locus_sorted.

(** ** The longest locus of a symbol on a chromosome *)

Section foldM_facts.
Import Exn.

Lemma foldM_app {A S} (f : S → A → res S) s l1 l2 :
  foldM f s (l1 ++ l2) = bind (foldM f s l1) (λ s', foldM f s' l2).
Proof.
revert s. induction l1 as [|x l1 IH]; intros s; [done|].
cbn [app foldM]. destruct (f s x) as [s1|e]; [|done]. apply IH.
Qed.

Lemma foldM_fmap {A B S} (f : S → B → res S) (g : A → B) s l :
  foldM f s (g <$> l) = foldM (λ s x, f s (g x)) s l.
Proof.
revert s. induction l as [|x l IH]; intros s; [done|].
cbn [fmap list_fmap foldM]. destruct (f s (g x)) as [s1|e]; [|done]. apply IH.
Qed.

End foldM_facts.

Section odict_more.
Import ODict.

Lemma get_Some_elem_of {V} k (v : V) d : get k d = Some v → (k, v) ∈ d.
Proof.
induction d as [|[k0 v0] d IH]; [done|]. cbn [get].
destruct (decide (k0 = k)) as [->|Hk].
- intros ?. simplify_eq. left.
- intros H. right. by apply IH.
Qed.

Lemma get_fmap_values {V W} (f : V → W) k (d : list (string * V)) :
  get k ((λ kv : string * V, (kv.1, f kv.2)) <$> d) = f <$> get k d.
Proof.
induction d as [|[k0 v0] d IH]; [done|]. cbn [fmap list_fmap get fst snd].
destruct (decide (k0 = k)); [done|]. apply IH.
Qed.

Lemma update_Forall {V} (P : V → Prop) default (f : V → V) k d :
  P (f default) → (∀ v, P v → P (f v)) →
  Forall (λ kv, P kv.2) d → Forall (λ kv, P kv.2) (update default f k d).
Proof.
intros Hdef Hf. induction 1 as [|[k0 v0] d Hv Hd IH]; cbn [update].
- constructor; [done|constructor].
- destruct (decide (k0 = k)); constructor; simpl in *; auto.
Qed.

Lemma extend_nil {V} (o : option (list V)) : extend o [] = o.
Proof. destruct o; simpl; [by rewrite app_nil_r|done]. Qed.

Lemma extend_app {V} (o : option (list V)) x ts :
  extend (Some (default [] o ++ [x])) ts = extend o (x :: ts).
Proof. destruct o; simpl; by rewrite <- ?app_assoc. Qed.

End odict_more.

Section locus_index.
Import PyStr PyOrd ODict Exn PyInt Locus.
Implicit Types bySym : list (string * list (string * list (Z * Z * Z * string * string))).

Lemma get2_update sym chrom t sym' chrom' bySym :
  get2 sym' chrom' (update [] (append_to chrom t) sym bySym)
  = if decide ((sym, chrom) = (sym', chrom'))
    then Some (default [] (get2 sym chrom bySym) ++ [t])
    else get2 sym' chrom' bySym.
Proof.
unfold get2. rewrite get_update. destruct (decide (sym = sym')) as [->|Hs].
- cbn [mbind option_bind]. unfold append_to. rewrite get_update.
  destruct (decide (chrom = chrom')) as [->|Hc].
  + rewrite decide_True by done. by destruct (get sym' bySym).
  + rewrite decide_False by congruence. by destruct (get sym' bySym).
- by rewrite decide_False by congruence.
Qed.

(** The buckets after the first loop of [bedToJson]. *)
Lemma index_get2 geneToSym rows bySym bySym' :
  foldM (indexRow geneToSym) bySym rows = Ok bySym' →
  ∀ sym chrom,
    get2 sym chrom bySym'
    = extend (get2 sym chrom bySym)
        (omap (λ row, match parseRow geneToSym row with
                      | Ok p => if decide (p.1 = (sym, chrom)) then Some p.2 else None
                      | Raise _ => None
                      end) rows).
Proof.
revert bySym. induction rows as [|row rows IH]; intros bySym Hf sym chrom.
- cbn in Hf. injection Hf as <-. cbn [omap list_omap]. by rewrite extend_nil.
- cbn [foldM] in Hf. unfold indexRow at 1 in Hf. cbn [omap list_omap].
  destruct (parseRow geneToSym row) as [[[s c] t]|e]; [|done].
  cbn in Hf. rewrite (IH _ Hf sym chrom), get2_update. cbn [fst snd].
  destruct (decide ((s, c) = (sym, chrom))) as [Heq|Hne].
  + simplify_eq. apply extend_app.
  + done.
Qed.

Lemma index_wf geneToSym rows bySym bySym' :
  foldM (indexRow geneToSym) bySym rows = Ok bySym' →
  wf_bySym bySym → wf_bySym bySym'.
Proof.
revert bySym. induction rows as [|row rows IH]; intros bySym Hf Hwf.
- cbn in Hf. by injection Hf as <-.
- cbn [foldM] in Hf. unfold indexRow at 1 in Hf.
  destruct (parseRow geneToSym row) as [[[s c] t]|e]; [|done].
  cbn in Hf. apply (IH _ Hf). destruct Hwf as [Hkeys Hinner]. split.
  + by apply update_NoDup.
  + apply (update_Forall (λ inner, NoDup inner.*1)); [| |done].
    * apply update_NoDup. constructor.
    * intros inner. apply update_NoDup.
Qed.

Lemma flatten_cons kv bySym :
  flatten (kv :: bySym)
  = ((λ cv : string * list (Z * Z * Z * string * string), (kv.1, cv.1, cv.2))
       <$> kv.2) ++ flatten bySym.
Proof. reflexivity. Qed.

Lemma flatten_elem sym chrom l bySym :
  get2 sym chrom bySym = Some l → (sym, chrom, l) ∈ flatten bySym.
Proof.
unfold get2. destruct (get sym bySym) as [inner|] eqn:Hs; [|done].
cbn [mbind option_bind]. intros Hc.
apply get_Some_elem_of in Hs, Hc.
unfold flatten. apply list_elem_of_bind. exists (sym, inner). split; [|done].
apply list_elem_of_fmap. by exists (chrom, l).
Qed.

Lemma flatten_keys_sym x bySym : x ∈ (flatten bySym).*1 → x.1 ∈ bySym.*1.
Proof.
intros ([[s c] l] & -> & Hin)%list_elem_of_fmap.
apply list_elem_of_bind in Hin as ([s' inner] & Hin & Hkv).
apply list_elem_of_fmap in Hin as ([c' l'] & Heq & _). simplify_eq/=.
apply list_elem_of_fmap. eexists (_, inner). split; [|exact Hkv]. done.
Qed.

Lemma flatten_NoDup bySym : wf_bySym bySym → NoDup (flatten bySym).*1.
Proof.
intros [Hkeys Hinner]. induction bySym as [|[s inner] bySym IH]; [constructor|].
apply NoDup_cons in Hkeys as [Hs Hkeys].
apply Forall_cons in Hinner as [Hin Hinner]. simpl in Hin.
rewrite flatten_cons, fmap_app. apply NoDup_app. split; [|split].
- assert (((λ cv : string * list (Z * Z * Z * string * string),
             (s, cv.1, cv.2)) <$> inner).*1 = pair s <$> inner.*1) as Heq.
  { rewrite <- !list_fmap_compose. by apply list_fmap_ext. }
  cbn [fst snd]. rewrite Heq.
  apply NoDup_fmap; [|done]. by intros ?? [= ?].
- intros x Hx Hx'. apply flatten_keys_sym in Hx'.
  apply list_elem_of_fmap in Hx as (y & -> & Hy).
  apply list_elem_of_fmap in Hy as (cv & -> & _). simpl in Hx'. done.
- by apply IH.
Qed.

Lemma collect_flatten bySym symLocs0 :
  foldM (λ symLocs kv, foldM (keepLongest kv.1) symLocs kv.2) symLocs0 bySym
  = foldM (λ symLocs x, keepLongest x.1.1 symLocs (x.1.2, x.2)) symLocs0
      (flatten bySym).
Proof.
revert symLocs0. induction bySym as [|[s inner] bySym IH]; intros symLocs0; [done|].
rewrite flatten_cons, foldM_app, foldM_fmap. cbn [foldM fst snd].
assert (foldM (keepLongest s) symLocs0 inner
        = foldM (λ symLocs cv, keepLongest s symLocs (cv.1, cv.2)) symLocs0 inner)
  as ->.
{ clear. revert symLocs0. induction inner as [|[c l] inner IH]; intros symLocs0; [done|].
  cbn [foldM fst snd]. destruct (keepLongest s symLocs0 (c, l)); [|done]. apply IH. }
destruct (foldM _ symLocs0 inner) as [s1|e]; [|done]. apply IH.
Qed.

End locus_index.

Section locus_collect.
Import PyStr PyOrd ODict Exn PyInt Locus Examples.

(** The lists of [symLocs] after the loops over the buckets. *)
Lemma collect_get (buckets : list (string * string * list (Z * Z * Z * string * string)))
    symLocs symLocs' :
  foldM (λ symLocs x, keepLongest x.1.1 symLocs (x.1.2, x.2)) symLocs buckets
  = Ok symLocs' →
  ∀ chrom,
    get chrom symLocs'
    = extend (get chrom symLocs)
        (omap (λ x, if decide (x.1.2 = chrom) then pick x else None) buckets).
Proof.
revert symLocs. induction buckets as [|[[s c] l] buckets IH]; intros symLocs Hf chrom.
- cbn in Hf. injection Hf as <-. cbn [omap list_omap]. by rewrite extend_nil.
- cbn [foldM fst snd] in Hf. unfold keepLongest at 1 in Hf.
  cbn [omap list_omap fst snd]. unfold pick at 1. cbn [fst snd] in *.
  destruct (longest l) as [t|e]; [|done]. cbn in Hf.
  rewrite (IH _ Hf chrom). unfold append_to. rewrite get_update.
  destruct (decide (c = chrom)) as [->|Hc]; [|done].
  apply extend_app.
Qed.

Lemma entriesOf_other sym chrom
    (buckets : list (string * string * list (Z * Z * Z * string * string))) :
  (sym, chrom) ∉ buckets.*1 →
  entriesOf sym (omap (λ x, if decide (x.1.2 = chrom) then pick x else None) buckets)
  = [].
Proof.
induction buckets as [|[[s c] l] buckets IH]; intros Hnotin; [done|].
cbn [omap list_omap fst snd].
assert (entriesOf sym
          (omap (λ x, if decide (x.1.2 = chrom) then pick x else None) buckets) = [])
  as Hrest.
{ apply IH. intros Hin. apply Hnotin. by right. }
destruct (decide (c = chrom)) as [->|Hc]; [|done].
unfold pick. cbn [fst snd]. destruct (longest l) as [t|e]; [|done].
cbn [option_list app]. unfold entriesOf in *. rewrite filter_cons.
rewrite decide_False; [done|]. unfold entry. cbn [snd].
intros ->. apply Hnotin. left.
Qed.

Lemma entriesOf_bucket sym chrom l t
    (buckets : list (string * string * list (Z * Z * Z * string * string))) :
  NoDup buckets.*1 → (sym, chrom, l) ∈ buckets → longest l = Ok t →
  entriesOf sym (omap (λ x, if decide (x.1.2 = chrom) then pick x else None) buckets)
  = [entry sym t].
Proof.
intros Hnd Hin Ht.
induction buckets as [|[[s c] l'] buckets IH]; [by apply elem_of_nil in Hin|].
apply NoDup_cons in Hnd as [Hhead Hnd]. cbn [fst] in Hhead.
cbn [omap list_omap fst snd].
apply elem_of_cons in Hin as [Heq|Hin].
- simplify_eq. rewrite decide_True by done. unfold pick. cbn [fst snd].
  rewrite Ht. cbn [option_list app]. unfold entriesOf. rewrite filter_cons.
  rewrite decide_True by done. f_equal. by apply entriesOf_other.
- assert ((s, c) ≠ (sym, chrom)) as Hne.
  { intros Heq. apply Hhead. rewrite Heq.
    apply list_elem_of_fmap. by exists (sym, chrom, l). }
  specialize (IH Hnd Hin).
  destruct (decide (c = chrom)) as [->|Hc]; [|done].
  unfold pick at 1. cbn [fst snd]. destruct (longest l') as [t'|e]; [|done].
  cbn [option_list app]. unfold entriesOf in *. rewrite filter_cons.
  rewrite decide_False; [done|]. unfold entry. cbn [snd]. congruence.
Qed.

Lemma lexico_pair {A B} `{Lexico A, Lexico B} (a a' : A) (b b' : B) :
  lexico (a, b) (a', b') ↔ lexico a a' ∨ (a = a' ∧ lexico b b').
Proof. done. Qed.

Lemma py_le_pair {A B} `{Lexico A, Lexico B} (a a' : A) (b b' : B) :
  py_le (a, b) (a', b') ↔ lexico a a' ∨ (a = a' ∧ py_le b b').
Proof.
unfold py_le. rewrite lexico_pair. split.
- intros [[?|[-> ?]]|?]; simplify_eq; auto.
- intros [?|[-> [?| ->]]]; auto.
Qed.

Lemma lexico_Z (a b : Z) : lexico a b ↔ (a < b)%Z.
Proof. done. Qed.

(** The greatest tuple has the greatest length; among tuples of that
    length it has the greatest remaining fields. *)
Lemma py_le_length_rest (t' t : Z * Z * Z * string * string) :
  py_le t' t →
  (t'.1.1.1.1 ≤ t.1.1.1.1)%Z ∧ (t'.1.1.1.1 = t.1.1.1.1 → py_le (rest t') (rest t)).
Proof.
destruct t' as [[[[n' s'] e'] st'] g'], t as [[[[n s] e] st] g].
unfold rest. cbn [fst snd].
rewrite !py_le_pair, !lexico_pair, !lexico_Z.
intros [[[[?|[-> ?]]|[? ?]]|[? ?]]|[? ?]]; simplify_eq;
  (split; [lia|]); intros; try lia; auto 10.
Qed.

End locus_collect.

Section locus_longest.
Import PyStr PyOrd ODict Exn PyInt Locus Examples.

(** X4. In a run that completes, a symbol with at least one locus on a
    chromosome has exactly one entry in the list of that chromosome: the
    one of the greatest tuple (length, start, end, strand, gene) among its
    loci there.  The locus kept has the greatest length, and among loci of
    that length the greatest (start, end, strand, gene). *)
Theorem bedToJson_keeps_longest geneToSym lines sortedLocs sym chrom :
  bedToJson geneToSym lines = Ok sortedLocs →
  lociOf geneToSym lines sym chrom ≠ [] →
  ∃ t geneList,
    t ∈ lociOf geneToSym lines sym chrom ∧
    (∀ t', t' ∈ lociOf geneToSym lines sym chrom →
       (t'.1.1.1.1 ≤ t.1.1.1.1)%Z ∧
       (t'.1.1.1.1 = t.1.1.1.1 → py_le (rest t') (rest t))) ∧
    get chrom sortedLocs = Some geneList ∧
    entriesOf sym geneList = [entry sym t].
Proof.
intros (bySym & symLocs & Hindex & Hcollect & ->)%bedToJson_inv Hne.
pose proof (index_get2 _ _ _ _ Hindex sym chrom) as Hget2.
fold (lociOf geneToSym lines sym chrom) in Hget2.
assert (wf_bySym bySym) as Hwf.
{ apply (index_wf _ _ _ _ Hindex). split; constructor. }
destruct (lociOf geneToSym lines sym chrom) as [|t0 ts] eqn:Hloci; [done|].
cbn in Hget2.
destruct (py_sort_reverse (t0 :: ts)) as [|t rest] eqn:Hsort.
{ by apply py_sort_reverse_nonempty in Hsort. }
pose proof (py_sort_reverse_head _ _ _ Hsort) as [Hin Hmax].
assert (longest (t0 :: ts) = Ok t) as Hlongest.
{ unfold longest. by rewrite Hsort. }
unfold collect in Hcollect. rewrite collect_flatten in Hcollect.
pose proof (collect_get _ _ _ Hcollect chrom) as Hchrom.
pose proof (entriesOf_bucket sym chrom (t0 :: ts) t (flatten bySym)
              (flatten_NoDup _ Hwf) (flatten_elem _ _ _ _ Hget2) Hlongest) as Hentries.
cbn [get] in Hchrom. unfold extend in Hchrom.
destruct (omap _ (flatten bySym)) as [|e es] eqn:Hes; [done|].
exists t, (py_sort (e :: es)). split; [done|]. split.
{ intros t' Ht'. by apply py_le_length_rest, Hmax. }
split.
{ rewrite get_fmap_values, Hchrom. done. }
assert (entriesOf sym (py_sort (e :: es)) ≡ₚ entriesOf sym (e :: es)) as Hperm.
{ unfold entriesOf. by rewrite py_sort_Permutation. }
rewrite Hentries in Hperm. by apply Permutation_singleton_r in Hperm.
Qed.

(** The example of the specification: of two loci of TP53 on chr17 of
    lengths 100 and 250 the index keeps the one of length 250. *)
Lemma bedToJson_keeps_longest_witness :
  ∃ t geneList,
    t ∈ lociOf gene_to_sym [bed1; bed2; bed3] "TP53" "chr17" ∧
    (∀ t', t' ∈ lociOf gene_to_sym [bed1; bed2; bed3] "TP53" "chr17" →
       (t'.1.1.1.1 ≤ t.1.1.1.1)%Z ∧
       (t'.1.1.1.1 = t.1.1.1.1 → py_le (rest t') (rest t))) ∧
    get "chr17" [("chr17", [(400%Z, 900%Z, "+", "WRAP53"); (1050%Z, 1300%Z, "-", "TP53")])]
    = Some geneList ∧
    entriesOf "TP53" geneList = [entry "TP53" t].
Proof.
apply (bedToJson_keeps_longest gene_to_sym [bed1; bed2; bed3]).
- vm_compute. reflexivity.
- vm_compute. discriminate.
Defined.

(** Ties in length go to the greatest remaining fields, not to the least:
    of two loci of length 100 that start at 0 and at 50 the index keeps
    the one that starts at 50, in either input order. *)
Lemma bedToJson_tie_keeps_greatest :
  lociOf gene_to_sym [bed_tie1; bed_tie2] "TP53" "chr17"
  = [(100%Z, 0%Z, 100%Z, "+", "ENSG01"); (100%Z, 50%Z, 150%Z, "+", "ENSG02")]
  ∧ lexico (0%Z, 100%Z, "+", "ENSG01") (50%Z, 150%Z, "+", "ENSG02")
  ∧ bedToJson gene_to_sym [bed_tie1; bed_tie2]
    = Ok [("chr17", [(50%Z, 150%Z, "+", "TP53")])]
  ∧ bedToJson gene_to_sym [bed_tie2; bed_tie1]
    = Ok [("chr17", [(50%Z, 150%Z, "+", "TP53")])].
Proof.
split; [by vm_compute|]. split; [|split; by vm_compute].
rewrite !lexico_pair, lexico_Z. left. left. left. lia.
Qed.

End locus_longest.

(** ** More on the signature file and the release guesser *)

Section parseSignatures_more.
Import PyStr Signatures Guesser Examples.

Lemma split_nonempty sep s : split sep s ≠ [].
Proof.
destruct s as [|c s]; [done|]. cbn [split].
destruct (Ascii.eqb c sep); [done|]. by destruct (split sep s).
Qed.

Lemma parseSignatures_fold_None (lines : list string) :
  foldl (λ acc line, verToGenes ← acc; parseSignatures_line verToGenes line)
        None lines = None.
Proof. by induction lines. Qed.

(** An invariant of the table that holds at the start and is kept by every
    line read holds of the table returned. *)
Lemma parseSignatures_invariant (P : gmap string (list string) → Prop) content verToGenes :
  P ∅ →
  (∀ m line m', P m → parseSignatures_line m line = Some m' → P m') →
  parseSignatures content = Some verToGenes → P verToGenes.
Proof.
intros Hempty Hstep. unfold parseSignatures.
generalize (lines content) (∅ : gmap string (list string)) Hempty.
intros ls. induction ls as [|line ls IH]; intros m Hm Hf.
- cbn in Hf. by simplify_eq.
- cbn [foldl] in Hf. cbn [mbind option_bind] in Hf.
  destruct (parseSignatures_line m line) as [m'|] eqn:Hline.
  + apply (IH m'); [by eapply Hstep|done].
  + by rewrite parseSignatures_fold_None in Hf.
Qed.

(** X5. No release read from a signature file has an empty list of
    identifiers: splitting the second field on the separator gives at least
    one string, so an empty field is read as the list with the empty string
    as its one element. *)
Theorem parseSignatures_lists_nonempty content verToGenes R l :
  parseSignatures content = Some verToGenes →
  verToGenes !! R = Some l → l ≠ [].
Proof.
intros Hparse. revert R l.
apply (parseSignatures_invariant
         (λ m, ∀ R l, m !! R = Some l → l ≠ []) content verToGenes); [| |done].
- intros R l. by rewrite lookup_empty.
- intros m line m' Hm Hline R l. unfold parseSignatures_line in Hline.
  destruct (startswith "#" line); [simplify_eq; apply Hm|].
  destruct (split TAB (rstrip (is_char LF) line)) as [|version [|geneIds [|? ?]]];
    try done.
  simplify_eq. destruct (decide (version = R)) as [->|Hne].
  + rewrite lookup_insert_eq. intros ?. simplify_eq. apply split_nonempty.
  + rewrite lookup_insert_ne by done. apply Hm.
Qed.

Lemma parseSignatures_lists_nonempty_witness : [""] ≠ ([] : list string).
Proof.
apply (parseSignatures_lists_nonempty (writeUniqs sign_with_empty)
         {["gencode-34" := [""]]} "gencode-34").
- by vm_compute.
- by vm_compute.
Defined.

End parseSignatures_more.

Section roundtrip_empty_sets.
Import PyStr Signatures Guesser Examples.

(** Reading back the line of one release, whatever the size of its set. *)
Lemma parseSignatures_uniqLine_any verToGenes key vals :
  name_ok key → (∀ x, x ∈ vals → id_ok x) →
  parseSignatures_line verToGenes (uniqLine key vals)
  = Some (<[key := split PIPE (join "|" (elements vals))]> verToGenes).
Proof.
intros (Hhash & Htab & Hlf & _) Hids.
assert (Forall id_ok (elements vals)) as Hall.
{ apply Forall_forall. intros x Hx. by apply Hids, elem_of_elements. }
set (J := join "|" (elements vals)).
assert (has_char TAB J = false) as HJtab.
{ apply has_char_join; [done|]. eapply Forall_impl; [exact Hall|].
  by intros x (_ & ? & _). }
assert (has_char LF J = false) as HJlf.
{ apply has_char_join; [done|]. eapply Forall_impl; [exact Hall|].
  by intros x (_ & _ & ? & _). }
unfold parseSignatures_line, uniqLine. fold J.
rewrite startswith_hash_app, Hhash.
replace (key +:+ String TAB (J +:+ String LF EmptyString))
  with ((key +:+ String TAB J) +:+ String LF EmptyString)
  by (by rewrite app_assoc_str, app_cons).
rewrite rstrip_line.
2:{ rewrite has_char_app, Hlf. simpl. by rewrite HJlf. }
by rewrite (split_app_sep TAB key J Htab), (split_none TAB J HJtab).
Qed.

Lemma parseSignatures_fold_any (kvs : list (string * gset string)) verToGenes :
  Forall (λ kv, name_ok kv.1 ∧ ∀ x, x ∈ kv.2 → id_ok x) kvs →
  foldl (λ acc line, verToGenes ← acc; parseSignatures_line verToGenes line)
        (Some verToGenes)
        (lines (foldr (λ kv out, uniqLine kv.1 kv.2 +:+ out) EmptyString kvs))
  = Some (foldl (λ m kv, <[kv.1 := split PIPE (join "|" (elements kv.2))]> m)
                verToGenes kvs).
Proof.
intros Hall. revert verToGenes.
induction Hall as [|[key vals] kvs (Hname & Hids) _ IH];
  intros verToGenes; [done|].
cbn [foldr fst snd] in *.
assert (uniqLine key vals
        = (key +:+ String TAB (join "|" (elements vals))) +:+ String LF EmptyString)
  as Hline.
{ unfold uniqLine. by rewrite app_assoc_str, app_cons. }
rewrite Hline at 1. rewrite app_assoc_str, app_cons, app_empty.
rewrite lines_app_line.
2:{ destruct Hname as (_ & _ & Hlf & _).
    rewrite has_char_app, Hlf. simpl.
    apply has_char_join; [done|]. apply Forall_forall.
    intros x Hx%elem_of_elements. by destruct (Hids x Hx) as (_ & _ & ? & _). }
rewrite <- Hline. cbn [foldl mbind option_bind].
rewrite parseSignatures_uniqLine_any by done. apply IH.
Qed.

(** X6. When the names and identifiers are free of the separators, writing
    a table and reading it back keeps every release, also one whose unique
    set is empty; but the empty set is read back as the list with the empty
    string as its one element, so that release scores 1, not 0, against an
    input that holds the empty identifier. *)
Theorem writeUniqs_parseSignatures_empty_set (dictSet : gmap string (gset string)) :
  (∀ R S, dictSet !! R = Some S → name_ok R ∧ ∀ x, x ∈ S → id_ok x) →
  ∃ verToGenes,
    parseSignatures (writeUniqs dictSet) = Some verToGenes ∧
    dom verToGenes = dom dictSet ∧
    ∀ R, dictSet !! R = Some ∅ →
         verToGenes !! R = Some [""] ∧
         ∀ fileGenes : gset string,
           "" ∈ fileGenes → (1, R) ∈ diffs fileGenes verToGenes.
Proof.
intros Hok.
exists ((λ S, split PIPE (join "|" (elements S))) <$> dictSet).
split; [|split].
- unfold parseSignatures, writeUniqs. rewrite parseSignatures_fold_any.
  + f_equal. apply map_eq. intros k.
    by rewrite (uniqVals_lookup dictSet
                  (λ _ S, split PIPE (join "|" (elements S)))), lookup_fmap.
  + apply Forall_forall. intros [R S] Hin%elem_of_map_to_list. by apply Hok.
- by rewrite dom_fmap_L.
- intros R HR.
  assert (((λ S, split PIPE (join "|" (elements S))) <$> dictSet) !! R = Some [""])
    as Hl.
  { rewrite lookup_fmap, HR. simpl. by rewrite elements_empty. }
  split; [done|]. intros fileGenes Hin. apply diffs_elem. exists [""].
  split; [done|]. unfold intersection.
  assert (fileGenes ∩ list_to_set [""] = ({[""]} : gset string)) as ->.
  { apply set_eq. intros x. rewrite elem_of_intersection, elem_of_list_to_set.
    rewrite list_elem_of_singleton, elem_of_singleton.
    split; [by intros [_ ?]|by intros ->]. }
  by rewrite size_singleton.
Qed.

Lemma writeUniqs_parseSignatures_empty_set_witness :
  ∃ verToGenes,
    parseSignatures (writeUniqs sign_with_empty) = Some verToGenes ∧
    dom verToGenes = dom sign_with_empty ∧
    ∀ R, sign_with_empty !! R = Some ∅ →
         verToGenes !! R = Some [""] ∧
         ∀ fileGenes : gset string,
           "" ∈ fileGenes → (1, R) ∈ diffs fileGenes verToGenes.
Proof.
apply (writeUniqs_parseSignatures_empty_set sign_with_empty).
intros R S. unfold sign_with_empty.
intros [<- <-]%lookup_singleton_Some. split; [by vm_compute|].
intros x Hx. by apply not_elem_of_empty in Hx.
Defined.

(** A blank line of the input file gives the empty identifier. *)
Example lineGeneId_blank_line : lineGeneId TAB (String LF "") = "".
Proof. reflexivity. Qed.

End roundtrip_empty_sets.

(** ** More on the release guesser *)

Section guesser_more.
Import PyStr Guesser Examples.

(** X7. Among the releases that tie for the best score the guesser returns
    the one with the greatest name: the tuples (score, name) are sorted in
    descending order and the first one is taken. *)
Theorem guessGencodeVersion_tie_break fileGenes signGenes best lb R l :
  guessGencodeVersion fileGenes signGenes = Some best →
  signGenes !! best = Some lb →
  signGenes !! R = Some l →
  size (intersection fileGenes l) = size (intersection fileGenes lb) →
  String.le R best.
Proof.
intros Hguess Hbest HR Hsize.
destruct (guess_head fileGenes signGenes) as ([n b] & rest & Hs & Hin & Hmax).
{ intros ->. by rewrite lookup_empty in HR. }
unfold guessGencodeVersion in Hguess. rewrite Hs in Hguess. simplify_eq/=.
apply diffs_elem in Hin as (l' & Hl' & ->). simplify_eq.
destruct (Hmax (size (intersection fileGenes l), R)) as [Hlt|[_ Hle]];
  simpl in *; [|lia|done].
apply diffs_elem. eauto.
Qed.

Lemma guessGencodeVersion_tie_break_witness : String.le "rel1" "rel2".
Proof.
apply (guessGencodeVersion_tie_break {["A"; "C"; "X"]} sign_example "rel2" ["C"]
         "rel1" ["A"; "B"]).
- by vm_compute.
- by vm_compute.
- by vm_compute.
- by vm_compute.
Defined.

(** X8. The guesser raises (the index 0 of the sorted list is out of range)
    exactly on the empty signature table. *)
Theorem guessGencodeVersion_None_iff fileGenes signGenes :
  guessGencodeVersion fileGenes signGenes = None ↔ signGenes = ∅.
Proof.
split.
- intros Hnone. destruct (decide (signGenes = ∅)) as [|Hne]; [done|].
  destruct (guess_head fileGenes signGenes Hne) as (b & rest & Hs & _).
  unfold guessGencodeVersion in Hnone. by rewrite Hs in Hnone.
- intros ->. reflexivity.
Qed.

(** X9. [guessGeneIdType] raises exactly on the empty set, and otherwise
    its answer is the classification of an element of the set. *)
Theorem guessGeneIdType_None_iff (genes : gset string) :
  guessGeneIdType genes = None ↔ genes = ∅.
Proof.
unfold guessGeneIdType. split.
- destruct (elements genes) eqn:He; [|done].
  intros _. by apply leibniz_equiv, elements_empty_inv.
- intros ->. by rewrite elements_empty.
Qed.

End guesser_more.

Section keepOnlyUnique_more.
Import Signatures Examples.
Implicit Types dictSet : gmap string (gset string).

Lemma elem_of_foldl_intersection (s : gset string) rest x :
  x ∈ foldl (∩) s rest ↔ x ∈ s ∧ ∀ t, t ∈ rest → x ∈ t.
Proof.
revert s. induction rest as [|t rest IH]; intros s; simpl.
- split; [intros ?; split; [done|]; by intros ? ?%elem_of_nil|by intros [? _]].
- rewrite IH, elem_of_intersection. split.
  + intros [[? ?] Hrest]. split; [done|].
    intros t' [->|?]%elem_of_cons; auto.
  + intros [? Hrest]. split; [split; [done|]|].
    * apply Hrest. left.
    * intros t' ?. apply Hrest. by right.
Qed.

(** X10. [keepOnlyUnique] raises exactly on the empty mapping: the
    intersection of all the sets is taken with no set to start from. *)
Theorem keepOnlyUnique_None_iff dictSet :
  keepOnlyUnique dictSet = None ↔ dictSet = ∅.
Proof.
split.
- intros Hnone. destruct (decide (dictSet = ∅)) as [|Hne]; [done|].
  destruct (keepOnlyUnique_Some dictSet Hne) as [n Hn]. congruence.
- intros ->. reflexivity.
Qed.

(** X11. The number returned beside the unique sets counts the identifiers
    that are in the set of every release; with two releases or more none of
    them is in a unique set. *)
Theorem keepOnlyUnique_common dictSet uniqVals n :
  keepOnlyUnique dictSet = Some (uniqVals, n) →
  ∃ allCommon : gset string,
    n = size allCommon ∧
    (∀ x, x ∈ allCommon ↔ ∀ R S, dictSet !! R = Some S → x ∈ S) ∧
    (2 ≤ size dictSet →
     ∀ R U, uniqVals !! R = Some U → U ∩ allCommon = ∅).
Proof.
intros Hk. pose proof (keepOnlyUnique_inv _ _ _ Hk) as Hl.
unfold keepOnlyUnique in Hk.
destruct (map_to_list dictSet).*2 as [|s rest] eqn:Hsets; [done|].
cbn in Hk. injection Hk as _ <-.
exists (foldl (∩) s rest).
assert (∀ x, x ∈ foldl (∩) s rest ↔ ∀ R S, dictSet !! R = Some S → x ∈ S)
  as Hcommon.
{ intros x. rewrite elem_of_foldl_intersection. split.
  - intros [Hs Hrest] R S HS.
    assert (S ∈ s :: rest) as [->|?]%elem_of_cons; auto.
    rewrite <- Hsets. apply list_elem_of_fmap. exists (R, S). split; [done|].
    by apply elem_of_map_to_list.
  - intros Hall.
    assert (∀ t, t ∈ s :: rest → x ∈ t) as Hin.
    { intros t. rewrite <- Hsets.
      intros ([R S] & -> & HRS%elem_of_map_to_list)%list_elem_of_fmap.
      by eapply Hall. }
    split; [apply Hin; left|]. intros t ?. apply Hin. by right. }
split; [done|]. split; [done|].
intros Hsize R U HU. rewrite Hl in HU.
apply fmap_Some in HU as (S & HS & ->).
assert (∃ R' S', R' ≠ R ∧ dictSet !! R' = Some S') as (R' & S' & Hne & HS').
{ destruct (map_choose (delete R dictSet)) as (R' & S' & HR').
  - intros Hempty. apply (f_equal size) in Hempty.
    rewrite map_size_delete, HS, map_size_empty in Hempty. lia.
  - apply lookup_delete_Some in HR' as [? ?]. eauto. }
apply set_eq. intros x. rewrite elem_of_intersection, elem_of_subtractOthers, Hcommon.
split; [|by intros ?%not_elem_of_empty].
intros [[_ Hnot] Hall]. destruct (Hnot R' S' Hne HS'). by eapply Hall.
Qed.

Lemma keepOnlyUnique_common_witness :
  ∃ allCommon : gset string,
    1 = size allCommon ∧
    (∀ x, x ∈ allCommon ↔ ∀ R S, three_releases !! R = Some S → x ∈ S) ∧
    (2 ≤ size three_releases →
     ∀ R U,
       (<["gencode-32" := {["A"]}]>
          (<["gencode-33" := {["C"]}]> (<["gencode-34" := ∅]> ∅))
          : gmap string (gset string)) !! R = Some U →
       U ∩ allCommon = ∅).
Proof.
apply (keepOnlyUnique_common three_releases). by vm_compute.
Defined.

End keepOnlyUnique_more.

(** ** More on reading the identifiers of an input file *)

Section parseGenes_more.
Import PyStr Guesser Examples.

Lemma parseGenes_loop sep (lines : list string) (fileGenes : gset string) :
  (foldl (parseGenes_step sep) (true, fileGenes) lines).2
  = list_to_set (lineGeneId sep <$> lines) ∪ fileGenes.
Proof.
revert fileGenes. induction lines as [|line lines IH]; intros fileGenes.
- cbn. by rewrite (left_id_L ∅ (∪)).
- cbn [foldl fmap list_fmap list_to_set]. unfold parseGenes_step at 2.
  cbn [fst snd negb]. rewrite IH.
  apply set_eq. intros x. rewrite !elem_of_union. tauto.
Qed.

(** X12. The first line of the input file is always dropped as a header,
    and the result is the set of the identifiers of all the other lines; a
    file with no line or with one line gives the empty set. *)
Theorem parseGenes_skips_header sep :
  (∀ header lines,
     parseGenes sep (header :: lines) = list_to_set (lineGeneId sep <$> lines)) ∧
  parseGenes sep [] = ∅ ∧
  (∀ header, parseGenes sep [header] = ∅).
Proof.
assert (∀ header lines,
          parseGenes sep (header :: lines) = list_to_set (lineGeneId sep <$> lines))
  as Hskip.
{ intros header lines. unfold parseGenes. cbn [foldl].
  unfold parseGenes_step at 2. cbn [fst snd negb].
  rewrite parseGenes_loop. by rewrite (right_id_L ∅ (∪)). }
split; [done|]. split; [done|]. intros header. by rewrite Hskip.
Qed.

Lemma first_split_prefix sep s : ∃ rest, s = first (split sep s) +:+ rest.
Proof.
induction s as [|c s [rest IH]]; [by exists ""|].
cbn [split]. destruct (Ascii.eqb c sep).
- by exists (String c s).
- destruct (split sep s) as [|h t] eqn:Hs; [by apply split_nonempty in Hs|].
  exists rest. unfold first in *. cbn [hd] in *. by rewrite app_cons, <- IH.
Qed.

Lemma first_split_no_sep sep s : has_char sep (first (split sep s)) = false.
Proof.
induction s as [|c s IH]; [done|].
cbn [split]. destruct (Ascii.eqb c sep) eqn:Hc; [done|].
destruct (split sep s) as [|h t] eqn:Hs; [by apply split_nonempty in Hs|].
unfold first in *. cbn [hd has_char] in *. by rewrite Hc, IH.
Qed.

Lemma first_splitOnce_prefix sep s : ∃ rest, s = first (splitOnce s sep) +:+ rest.
Proof.
induction s as [|c s [rest IH]]; [by exists ""|].
cbn [splitOnce]. destruct (Ascii.eqb c sep).
- by exists (String c s).
- destruct (splitOnce s sep) as [|h t] eqn:Hs.
  + exists s. unfold first. cbn [hd]. by rewrite app_cons.
  + exists rest. unfold first in *. cbn [hd] in *. by rewrite app_cons, <- IH.
Qed.

Lemma length_app_str s t : String.length (s +:+ t) = String.length s + String.length t.
Proof. induction s as [|c s IH]; [done|]. rewrite app_cons. simpl. by rewrite IH. Qed.

Lemma lstrip_length p s : String.length (lstrip p s) ≤ String.length s.
Proof.
induction s as [|c s IH]; [done|]. cbn [lstrip].
destruct (p c); simpl in *; lia.
Qed.

Lemma rstrip_length p s : String.length (rstrip p s) ≤ String.length s.
Proof.
induction s as [|c s IH]; [done|]. cbn [rstrip].
destruct (rstrip p s); [destruct (p c)|]; simpl in *; lia.
Qed.

Lemma strip_length p s : String.length (strip p s) ≤ String.length s.
Proof.
unfold strip. pose proof (rstrip_length p (lstrip p s)).
pose proof (lstrip_length p s). lia.
Qed.

(** X13. The identifier extracted from a line has at most 50 characters
    and contains neither a dot nor a vertical bar: a version or isoform
    suffix is always cut off. *)
Theorem lineGeneId_shape sep line :
  String.length (lineGeneId sep line) ≤ 50 ∧
  has_char DOT (lineGeneId sep line) = false ∧
  has_char PIPE (lineGeneId sep line) = false.
Proof.
unfold lineGeneId.
set (w := slice_to 50 line).
set (g0 := first (splitOnce w sep)).
set (g := strip is_space (strip (is_char CR) (strip (is_char LF) g0))).
set (d := first (split DOT g)).
split; [|split].
- destruct (first_split_prefix PIPE d) as [r1 H1].
  destruct (first_split_prefix DOT g) as [r2 H2]. fold d in H2.
  destruct (first_splitOnce_prefix sep w) as [r3 H3]. fold g0 in H3.
  apply (f_equal String.length) in H1, H2, H3.
  rewrite length_app_str in H1, H2, H3.
  pose proof (slice_to_length 50 line). fold w in H.
  pose proof (strip_length is_space (strip (is_char CR) (strip (is_char LF) g0))).
  pose proof (strip_length (is_char CR) (strip (is_char LF) g0)).
  pose proof (strip_length (is_char LF) g0).
  fold g in H0. lia.
- destruct (first_split_prefix PIPE d) as [r1 H1].
  pose proof (first_split_no_sep DOT g) as Hd. fold d in Hd.
  rewrite H1, has_char_app in Hd. by apply orb_false_elim in Hd as [? _].
- apply first_split_no_sep.
Qed.

End parseGenes_more.

(** ** Symbol tables and the rows of a BED file *)

Section canon_failure.
Import PyStr PyOrd ODict Exn PyInt Canon Examples.

Lemma bucketLoop_fails transToGene (lines : list string) line e d :
  line ∈ lines → parseLine transToGene line = Raise e →
  ∃ e', foldM (bucketLine transToGene) d lines = Raise e'.
Proof.
intros Hin Hbad. revert d.
induction lines as [|l lines IH]; intros d; [by apply elem_of_nil in Hin|].
cbn [foldM]. unfold bucketLine at 1.
apply elem_of_cons in Hin as [<-|Hin].
- rewrite Hbad. by exists e.
- destruct (parseLine transToGene l) as [p|e1]; [|by exists e1].
  cbn. by apply IH.
Qed.

(** X14. If any line of the transcript table cannot be read (no second
    column, a transcript that is not in the table, a gene ID without a
    digit), [iterGencodeBed] raises before it yields any row: no partial
    table is produced. *)
Theorem iterGencodeBed_bad_line transToGene lines line e :
  line ∈ lines → parseLine transToGene line = Raise e →
  ∃ e', iterGencodeBed transToGene lines = {| yielded := []; raised := Some e' |}.
Proof.
intros Hin Hbad.
destruct (bucketLoop_fails transToGene lines line e [] Hin Hbad) as [e' He'].
exists e'. unfold iterGencodeBed. by rewrite He'.
Qed.

Lemma iterGencodeBed_bad_line_witness :
  ∃ e', iterGencodeBed trans_to_gene [trans1; tabbed ["585"; "ENST99"]; trans3]
        = {| yielded := []; raised := Some e' |}.
Proof.
apply (iterGencodeBed_bad_line trans_to_gene _ (tabbed ["585"; "ENST99"]) KeyError).
- right. left.
- by vm_compute.
Defined.

End canon_failure.

Section writeRows_roundtrip.
Import PyStr Exn Locus Tables Examples.

Lemma rstrip_last p s c :
  any_char p s = false → p c = true →
  rstrip p (s +:+ String c EmptyString) = s.
Proof.
intros Hs Hc. induction s as [|a s IH].
{ rewrite app_empty. cbn [rstrip]. by rewrite Hc. }
rewrite app_cons. cbn [rstrip]. cbn [any_char] in Hs.
apply orb_false_elim in Hs as [Ha Hs]. rewrite (IH Hs).
destruct s; [by rewrite Ha|done].
Qed.

Lemma any_char_app p s t : any_char p (s +:+ t) = any_char p s || any_char p t.
Proof.
induction s as [|a s IH]; [done|].
rewrite app_cons. cbn [any_char]. by rewrite IH, orb_assoc.
Qed.

Lemma any_char_join p sep (l : list string) :
  p sep = false → Forall (λ x, any_char p x = false) l →
  any_char p (join (String sep EmptyString) l) = false.
Proof.
intros Hsep. induction l as [|x l IH]; [done|]. intros Hall.
apply Forall_cons in Hall as [Hx Hl].
destruct l as [|y l]; [done|].
change (join (String sep EmptyString) (x :: y :: l))
  with (x +:+ String sep EmptyString +:+ join (String sep EmptyString) (y :: l)).
rewrite any_char_app, Hx, app_cons, app_empty. cbn [any_char orb].
by rewrite Hsep, (IH Hl).
Qed.

(** X15. Rows written by [writeRows] are read back unchanged by
    [iterBedRows], provided no row is empty and no field has a tab, a line
    feed or a carriage return in it. *)
Theorem writeRows_iterBedRows (rows : list (list string)) :
  Forall (λ row, row ≠ [] ∧ Forall field_ok row) rows →
  iterBedRows (lines (writeRows rows)) = rows.
Proof.
induction 1 as [|row rows [Hne Hfields] _ IH]; [done|].
cbn [writeRows foldr]. fold (writeRows rows).
set (body := join (String TAB EmptyString) row).
assert (any_char (λ c, is_char LF c || is_char CR c) body = false) as Hend.
{ apply any_char_join; [done|]. eapply Forall_impl; [exact Hfields|].
  intros x Hx. eapply any_char_weaken; [|exact Hx].
  intros c Hc. cbn beta. destruct (is_char TAB c); [done|]. exact Hc. }
assert (has_char LF body = false) as Hlf.
{ rewrite has_char_any. eapply any_char_weaken; [|exact Hend].
  intros c ->%Ascii.eqb_eq. reflexivity. }
rewrite lines_app_line by done.
unfold iterBedRows in *. cbn [fmap list_fmap]. rewrite IH. f_equal.
rewrite rstrip_last by done.
apply (split_join TAB); [done|].
eapply Forall_impl; [exact Hfields|]. intros x Hx.
rewrite has_char_any. eapply any_char_weaken; [|exact Hx].
intros c ->%Ascii.eqb_eq. reflexivity.
Qed.

Lemma writeRows_iterBedRows_witness :
  iterBedRows (lines (writeRows [["chr17"; "400"; "900"; "ENSG03"; "0"; "+"];
                                 ["chrX"; ""; "5"]]))
  = [["chr17"; "400"; "900"; "ENSG03"; "0"; "+"]; ["chrX"; ""; "5"]].
Proof.
apply writeRows_iterBedRows.
repeat (constructor; [split; [done|]; repeat (constructor; [by vm_compute|]);
                      constructor|]).
constructor.
Defined.

(** The empty row is written as an empty line and read back as the row
    with one empty field. *)
Example writeRows_empty_row : iterBedRows (lines (writeRows [[]])) = [[""]].
Proof. reflexivity. Qed.

End writeRows_roundtrip.

Section iterGencodePairs_facts.
Import PyStr Exn Tables Examples.

Lemma first_row_cons_same doTransGene line lines k v0 v :
  pairOfLine doTransGene line = Ok (k, v0) →
  first_row doTransGene (line :: lines) k v ↔ v = v0.
Proof.
intros Hline. split.
- intros (before & l & after & Heq & Hl & Hfirst).
  destruct before as [|b before]; simplify_eq/=; [congruence|].
  destruct (Hfirst b v0); [left|done].
- intros ->. exists [], line, lines. split; [done|]. split; [done|].
  by intros ?? ?%elem_of_nil.
Qed.

Lemma first_row_cons_other doTransGene line lines k0 v0 k v :
  pairOfLine doTransGene line = Ok (k0, v0) → k ≠ k0 →
  first_row doTransGene (line :: lines) k v ↔ first_row doTransGene lines k v.
Proof.
intros Hline Hne. split.
- intros (before & l & after & Heq & Hl & Hfirst).
  destruct before as [|b before]; simplify_eq/=; [congruence|].
  exists before, l, after. split; [done|]. split; [done|].
  intros line' v' Hin. apply Hfirst. by right.
- intros (before & l & after & -> & Hl & Hfirst).
  exists (line :: before), l, after. split; [done|]. split; [done|].
  intros line' v' [->|Hin]%elem_of_cons; [congruence|by apply Hfirst].
Qed.

Lemma pairsLoop_spec doTransGene lines doneIds ps :
  pairsLoop doTransGene doneIds lines = {| pairs := ps; pairs_raised := None |} →
  NoDup ps.*1 ∧
  ∀ k v, (k, v) ∈ ps ↔ (k ∉ doneIds) ∧ first_row doTransGene lines k v.
Proof.
revert doneIds ps. induction lines as [|line lines IH]; intros doneIds ps Hrun.
- cbn in Hrun. injection Hrun as <-. split; [constructor|].
  intros k v. split; [by intros ?%elem_of_nil|].
  intros [_ (before & l & after & Heq & _)]. by destruct before.
- cbn [pairsLoop] in Hrun.
  destruct (pairOfLine doTransGene line) as [[k0 v0]|e] eqn:Hline; [|done].
  cbn [fst] in Hrun. destruct (decide (k0 ∈ doneIds)) as [Hdone|Hnew].
  + destruct (IH _ _ Hrun) as [Hnd Hps]. split; [done|].
    intros k v. rewrite Hps. split.
    * intros [Hk Hfirst]. split; [done|].
      apply (first_row_cons_other doTransGene line lines k0 v0 k v); [done|congruence|done].
    * intros [Hk Hfirst]. split; [done|].
      apply (first_row_cons_other doTransGene line lines k0 v0 k v) in Hfirst; [done..|congruence].
  + destruct (pairsLoop doTransGene ({[k0]} ∪ doneIds) lines) as [ps' r] eqn:Hrest.
    cbn in Hrun. injection Hrun as <- ->.
    destruct (IH _ _ Hrest) as [Hnd Hps]. split.
    * cbn. apply NoDup_cons. split; [|done].
      intros ([k v] & Hk & Hin)%list_elem_of_fmap. simpl in Hk. subst k.
      apply Hps in Hin as [Hin _]. apply Hin, elem_of_union_l.
      by apply elem_of_singleton.
    * intros k v. rewrite elem_of_cons, Hps.
      destruct (decide (k = k0)) as [->|Hne].
      -- rewrite (first_row_cons_same doTransGene line lines k0 v0 v) by done. split.
         ++ intros [?|[Hin _]]; [by simplify_eq|].
            destruct Hin. apply elem_of_union_l. by apply elem_of_singleton.
         ++ intros [_ ->]. by left.
      -- rewrite (first_row_cons_other doTransGene line lines k0 v0 k v) by done. split.
         ++ intros [?|[Hin ?]]; [by simplify_eq|]. split; [|done].
            intros ?. apply Hin. by apply elem_of_union_r.
         ++ intros [Hk ?]. right. split; [|done].
            intros [?%elem_of_singleton|?]%elem_of_union; done.
Qed.

(** X16. When [iterGencodePairs] completes, no key is yielded twice, and
    a pair (key, value) is yielded exactly when the first line with that
    key has that value: later lines with a key already seen are ignored. *)
Theorem iterGencodePairs_first_row doTransGene lines ps :
  iterGencodePairs doTransGene lines = {| pairs := ps; pairs_raised := None |} →
  NoDup ps.*1 ∧ ∀ k v, (k, v) ∈ ps ↔ first_row doTransGene lines k v.
Proof.
intros Hrun. destruct (pairsLoop_spec _ _ _ _ Hrun) as [Hnd Hps].
split; [done|]. intros k v. rewrite Hps. split; [by intros [_ ?]|].
intros ?. split; [|done]. apply not_elem_of_empty.
Qed.

Lemma iterGencodePairs_first_row_witness :
  NoDup [("ENSG00000000005.5", "TNMD"); ("ENSG00000000003.14", "TSPAN6")].*1 ∧
  ∀ k v, (k, v) ∈ [("ENSG00000000005.5", "TNMD"); ("ENSG00000000003.14", "TSPAN6")]
         ↔ first_row false [attrs1; attrs2; attrs3] k v.
Proof.
apply (iterGencodePairs_first_row false [attrs1; attrs2; attrs3]).
by vm_compute.
Defined.

End iterGencodePairs_facts.

Section uniqueIds_facts.
Import PyStr Exn Signatures Tables Examples.

(** X17. No symbol file is read for both organisms, and a lifted release
    is read for neither. *)
Theorem selected_exclusive baseName :
  (selected "human" baseName = true → selected "mouse" baseName = false) ∧
  (contains "lift" baseName = true →
   ∀ org, selected org baseName = false).
Proof.
unfold selected. split.
- cbn [String.eqb]. cbn.
  destruct (contains "lift" baseName), (contains "mouse" baseName),
    (contains "human" baseName), (contains "M" baseName); done.
- intros -> org. done.
Qed.

Lemma readSymbolFiles_none_selected org (files : list (string * list string))
  (st : gmap string (gset string) * gmap string (gset string)) :
  Forall (λ file, selected org file.1 = false) files →
  foldl (λ acc file,
           st ← acc;
           if selected org file.1 then
             let geneType := hd EmptyString (split DOT file.1) in
             symsIds ← readSymbolFile file.2;
             Some (<[geneType := symsIds.1]> st.1, <[geneType := symsIds.2]> st.2)
           else Some st)
        (Some st) files = Some st.
Proof.
induction 1 as [|file files Hsel _ IH]; [done|].
cbn [foldl mbind option_bind]. by rewrite Hsel.
Qed.

(** X18. When none of the symbol files is a release of the organism,
    [uniqueIds] raises instead of writing empty tables: [keepOnlyUnique]
    is called on the empty mapping. *)
Theorem uniqueIds_no_release org (files : list (string * list string)) :
  Forall (λ file, selected org file.1 = false) files →
  uniqueIds org files = None.
Proof.
intros Hnone. unfold uniqueIds, readSymbolFiles.
by rewrite readSymbolFiles_none_selected.
Qed.

Lemma uniqueIds_no_release_witness :
  uniqueIds "mouse" [("gencode-34.symbols.tsv.gz", [attrs1; attrs3]);
                     ("gencode-33lift37.symbols.tsv.gz", [attrs1])] = None.
Proof.
apply uniqueIds_no_release. repeat (constructor; [by vm_compute|]). constructor.
Defined.

End uniqueIds_facts.

(** ** The order of the canonical rows, the blocks and the failures of the
    locus index *)

Section canon_order.
Import PyStr PyOrd ODict Exn PyInt Canon Pipeline Examples.
Implicit Types d : list (string * list (Z * list string)).

Lemma buckets_keys transToGene lines d d' :
  foldM (bucketLine transToGene) d lines = Ok d' →
  ∃ genes,
    Forall2 (λ line g, ∃ t, parseLine transToGene line = Ok (g, t)) lines genes ∧
    d'.*1 = d.*1 ++ filter (λ g, g ∉ d.*1) (firstSeen genes).
Proof.
revert d. induction lines as [|line lines IH]; intros d Hf.
- simplify_eq/=. exists []. split; [constructor|]. by rewrite app_nil_r.
- cbn [foldM] in Hf. unfold bucketLine at 1 in Hf.
  destruct (parseLine transToGene line) as [[g t]|e] eqn:Hline; [|done].
  cbn in Hf. destruct (IH _ Hf) as (genes & Hgenes & Hkeys).
  exists (g :: genes). split; [constructor; eauto|].
  rewrite Hkeys. unfold append_to. rewrite update_keys. cbn [firstSeen].
  destruct (decide (g ∈ d.*1)) as [Hin|Hnew].
  + rewrite filter_cons_False by (intros Hn; by apply Hn).
    rewrite list_filter_filter_l; [done|]. intros x Hx ->. by apply Hx.
  + rewrite filter_cons_True by done.
    rewrite <- app_assoc. cbn [app]. do 2 f_equal.
    rewrite list_filter_filter. apply list_filter_iff. intros x.
    rewrite elem_of_app, list_elem_of_singleton. tauto.
Qed.

Lemma yieldRows_genes d out :
  Forall2 (λ kv newRow, canonicalRow kv.1 kv.2 = Ok newRow) d out →
  (λ row, row !! 3) <$> out = Some <$> d.*1.
Proof.
intros Hrows. induction Hrows as [|kv row d out Hrow _ IH]; [done|].
cbn [fmap list_fmap]. cbn [fmap] in IH. rewrite IH. f_equal.
apply canonicalRow_inv in Hrow as (canon & _ & _ & Hmake).
by apply makeRow_gene in Hmake.
Qed.

(** X19. When [iterGencodeBed] completes, the rows come in the order in
    which the genes first appear in the transcript table: the fourth
    column of the output lists every gene of the input once, at the place
    of its first transcript. *)
Theorem iterGencodeBed_order transToGene lines out :
  iterGencodeBed transToGene lines = {| yielded := out; raised := None |} →
  ∃ genes,
    Forall2 (λ line g, ∃ t, parseLine transToGene line = Ok (g, t)) lines genes ∧
    (λ row, row !! 3) <$> out = Some <$> firstSeen genes.
Proof.
unfold iterGencodeBed. intros Hrun.
destruct (foldM (bucketLine transToGene) [] lines) as [d|e] eqn:Hd; [|done].
destruct (buckets_keys _ _ _ _ Hd) as (genes & Hgenes & Hkeys).
exists genes. split; [done|].
rewrite (yieldRows_genes d out (yieldRows_rows _ _ Hrun)), Hkeys. cbn [fmap list_fmap app].
f_equal. generalize (firstSeen genes). clear. intros l.
induction l as [|x l IH]; [done|].
rewrite filter_cons_True by apply not_elem_of_nil. f_equal. exact IH.
Qed.

Lemma iterGencodeBed_order_witness :
  ∃ genes,
    Forall2 (λ line g, ∃ t, parseLine trans_to_gene line = Ok (g, t))
            [trans3; trans1; trans2] genes ∧
    (λ row, row !! 3)
      <$> [["chrX"; "900"; "1000"; "ENSG00000000003.14"; "0"; "-"; "900"; "1000"; "1";
            "100"; "900"; "TSPAN6"];
           ["chrX"; "120"; "500"; "ENSG00000000005.5"; "0"; "+"; "150"; "450"; "1";
            "380"; "120"; "TNMD"]]
    = Some <$> firstSeen genes.
Proof.
apply (iterGencodeBed_order trans_to_gene [trans3; trans1; trans2]).
vm_compute. reflexivity.
Defined.

(** The loop over the exons, from any state. *)
Lemma blockStep_exons (starts ends : list string) (ss es : list Z) acc :
  Forall2 (λ s z, py_int s = Some z) starts ss →
  Forall2 (λ s z, py_int s = Some z) ends es →
  length starts = length ends →
  foldM blockStep acc (zip starts ends)
  = Ok (acc.1 ++ starts, acc.2 ++ zip_with (λ s e, pretty (e - s)%Z) ss es).
Proof.
intros Hs. revert ends es acc.
induction Hs as [|s z starts ss Hz _ IH]; intros ends es acc He Hlen.
- destruct ends; [|done]. inversion He; subst. cbn. rewrite !app_nil_r. by destruct acc.
- destruct He as [|e z' ends es Hz' He]; [done|].
  cbn [zip zip_with foldM]. unfold blockStep at 1. cbn [fst snd].
  assert (String.eqb s "" = false) as ->.
  { destruct s; [done|reflexivity]. }
  rewrite Hz', Hz. cbn [of_option mbind res_bind bind].
  rewrite (IH ends es) by (done || (simpl in Hlen; lia)). cbn [fst snd zip_with].
  by rewrite <- !app_assoc.
Qed.

(** X20. With the trailing comma of the transcript tables, the block
    starts of a row are the exon starts themselves, unchanged, and every
    block length is the exon's end minus its start; the empty last entry
    gives no block. *)
Theorem blocks_trailing_comma exonStarts exonEnds (starts ends : list string)
    (ss es : list Z) :
  split "," exonStarts = starts ++ [""] →
  split "," exonEnds = ends ++ [""] →
  Forall2 (λ s z, py_int s = Some z) starts ss →
  Forall2 (λ s z, py_int s = Some z) ends es →
  length starts = length ends →
  blocks exonStarts exonEnds
  = Ok (starts, zip_with (λ s e, pretty (e - s)%Z) ss es).
Proof.
intros Hstarts Hends Hs He Hlen. unfold blocks. rewrite Hstarts, Hends.
rewrite zip_with_app by done. rewrite foldM_app.
rewrite (blockStep_exons starts ends ss es) by done. reflexivity.
Qed.

Lemma blocks_trailing_comma_witness :
  blocks "100,300," "200,500," = Ok (["100"; "300"], ["100"; "200"]).
Proof.
apply (blocks_trailing_comma "100,300," "200,500," ["100"; "300"] ["200"; "500"]
         [100%Z; 300%Z] [200%Z; 500%Z]); try reflexivity.
- repeat constructor.
- repeat constructor.
Defined.

End canon_order.

Section locus_failure.
Import PyStr PyOrd ODict Exn PyInt Locus Examples.

Lemma indexRows_ok geneToSym rows bySym :
  Forall (λ row, ∃ p, parseRow geneToSym row = Ok p) rows →
  ∃ bySym', foldM (indexRow geneToSym) bySym rows = Ok bySym'.
Proof.
intros Hrows. revert bySym.
induction Hrows as [|row rows [p Hp] _ IH]; intros bySym; [by eexists|].
cbn [foldM]. unfold indexRow at 1. rewrite Hp. cbn. apply IH.
Qed.

(** X21. The first row of the BED file that cannot be indexed (fewer than
    six fields, a gene without a symbol, a start or an end that is not an
    integer) ends [bedToJson] with the exception of that row: no index is
    built from the rows before it or after it. *)
Theorem bedToJson_first_bad_row geneToSym lines before row after e :
  iterBedRows lines = before ++ row :: after →
  Forall (λ row', ∃ p, parseRow geneToSym row' = Ok p) before →
  parseRow geneToSym row = Raise e →
  bedToJson geneToSym lines = Raise e.
Proof.
intros Hrows Hbefore Hrow. unfold bedToJson. rewrite Hrows, foldM_app.
destruct (indexRows_ok geneToSym before [] Hbefore) as [bySym ->].
cbn [bind foldM]. unfold indexRow at 1. by rewrite Hrow.
Qed.

Lemma bedToJson_first_bad_row_witness :
  bedToJson gene_to_sym [bed1; tabbed ["chr17"; "5"; "9"; "ENSG99"; "0"; "+"]; bed3]
  = Raise KeyError.
Proof.
apply (bedToJson_first_bad_row gene_to_sym _
         [["chr17"; "1000"; "1100"; "ENSG01"; "0"; "-"]]
         ["chr17"; "5"; "9"; "ENSG99"; "0"; "+"]
         [["chr17"; "400"; "900"; "ENSG03"; "0"; "+"]]).
- reflexivity.
- constructor; [|constructor]. eexists. reflexivity.
- reflexivity.
Defined.

End locus_failure.

Section symbol_tables.
Import PyStr Exn Signatures Guesser Tables Pipeline Examples.




(** X23. An input file with no line after its header makes [guessGencode]
    raise, whether or not the organism is given and whatever signature
    tables are installed: the set of genes is empty and has no first
    element. *)
Theorem guessGencode_no_data_line sep (lines : list string) org signatureFile :
  length lines ≤ 1 → guessGencode sep lines org signatureFile = None.
Proof.
intros Hlen. unfold guessGencode.
assert (parseGenes sep lines = ∅) as ->; [|done].
destruct lines as [|header [|line lines]]; [done|done|]. simpl in Hlen. lia.
Qed.

Lemma guessGencode_no_data_line_witness :
  guessGencode TAB [header_line] (Some "human") (λ _ _, Some (writeUniqs sign_two))
  = None.
Proof.
apply guessGencode_no_data_line. simpl. lia.
Defined.

End symbol_tables.
